(** * Stellar Homestead: the simulation engine of [homestead.cpp]

    A shallow embedding of the resource ledger ([class Resource]), the
    producers ([Building] and its four subclasses, [Colonist]), the event
    catalog ([Event], [SolarStorm], [TradeShip], [MeteorShower]), the phase
    state machine ([GameState]) and the engine ([GameEngine]), followed by
    the properties of the engine.

    Conventions.
    - A C++ [int] is a [Z] and every arithmetic operation on it is reduced
      to the 32-bit two's-complement range ([Int.wrap]).  Statements that
      speak of exact sums assume that the operation stays in range.
    - [std::map<std::string,int>] is a [gmap string Z]; a range-based [for]
      over it visits the entries by increasing key ([entries]).
    - A method that mutates its object returns the new object; a method
      that can throw returns a [result].
    - Console output is not part of the state.  The values read from
      [std::cin] and the number drawn from the random generator are inputs
      of the step function ([Input]). *)

From Stdlib Require Import ZArith Lia.
From stdpp Require Import base tactics option list strings gmap fin_maps sorting.

Local Open Scope Z_scope.

(** ** C++ [int] arithmetic *)

Module Int.

Definition min_int : Z := -2147483648.
Definition max_int : Z := 2147483647.

Definition in_range (z : Z) : Prop := min_int <= z <= max_int.

Definition wrap (z : Z) : Z := (z + 2147483648) mod 4294967296 - 2147483648.

Definition add (a b : Z) : Z := wrap (a + b).
Definition sub (a b : Z) : Z := wrap (a - b).
Definition mul (a b : Z) : Z := wrap (a * b).
(* [a / b] on ints truncates toward zero. *)
Definition div (a b : Z) : Z := wrap (Z.quot a b).
(* [std::min], [std::max] *)
Definition min (a b : Z) : Z := if b <? a then b else a.
Definition max (a b : Z) : Z := if a <? b then b else a.

End Int.

(** ** Exceptions *)

Inductive exn : Type :=
  | ResourceError (what : string)
  | GameStateError (what : string)
  | ColonistError (what : string).

Definition ResourceException (msg : string) : exn :=
  ResourceError ("Resource Error: " +:+ msg).
Definition GameStateException (msg : string) : exn :=
  GameStateError ("Game State Error: " +:+ msg).
Definition ColonistException (msg : string) : exn :=
  ColonistError ("Colonist Error: " +:+ msg).

Inductive result (A : Type) : Type :=
  | Ok (a : A)
  | Throw (e : exn).
Arguments Ok {A} a.
Arguments Throw {A} e.

(** ** [class Resource] *)

Abbreviation Resource := (gmap string Z).

Module Res.

(* Key order of [std::map<std::string,int>]. *)
Definition key_le (p q : string * Z) : Prop := String.le p.1 q.1.

#[global] Instance key_le_dec p q : Decision (key_le p q).
Proof. unfold key_le, String.le. apply _. Defined.

(* The entries in the order a range-based [for] visits them. *)
Definition entries (r : Resource) : list (string * Z) :=
  merge_sort key_le (map_to_list r).

(* The quantity stored under [k]; a key [operator[]] has to create starts at 0. *)
Definition qty (r : Resource) (k : string) : Z := default 0 (r !! k).

(* [Resource()] *)
Definition new : Resource :=
  <["oxygen" := 100]> (<["materials" := 50]> (<["energy" := 100]> (<["food" := 100]> ∅))).

(* [int& operator[](k)] used as an rvalue: the key is created when absent. *)
Definition touch (k : string) (r : Resource) : Resource := <[k := qty r k]> r.

(* [r[k] = v] *)
Definition set (k : string) (v : Z) (r : Resource) : Resource := <[k := v]> r.

(* [r[k] += v] *)
Definition incr (k : string) (v : Z) (r : Resource) : Resource :=
  <[k := Int.add (qty r k) v]> r.

(* [const int& operator[](k) const] *)
Definition at_const (r : Resource) (k : string) : result Z :=
  match r !! k with
  | Some v => Ok v
  | None => Throw (ResourceException ("Unknown resource type: " +:+ k))
  end.

(* The loop of [operator+] over the entries of [other]. *)
Fixpoint add_loop (result : Resource) (es : list (string * Z)) : Resource :=
  match es with
  | [] => result
  | (k, v) :: es' => add_loop (<[k := Int.add (qty result k) v]> result) es'
  end.

(* [Resource operator+(const Resource& other) const] *)
Definition add (this other : Resource) : Resource :=
  add_loop this (entries other).

(* The loop of [operator-] over the entries of [other]. *)
Fixpoint sub_loop (res : Resource) (es : list (string * Z)) : result Resource :=
  match es with
  | [] => Ok res
  | (k, v) :: es' =>
      let res' := <[k := Int.sub (qty res k) v]> res in
      if qty res' k <? 0
      then Throw (ResourceException ("Insufficient " +:+ k))
      else sub_loop res' es'
  end.

(* [Resource operator-(const Resource& other) const] *)
Definition sub (this other : Resource) : result Resource :=
  sub_loop this (entries other).

(* [Resource& operator+=(const Resource& other)] *)
Definition add_assign (this other : Resource) : Resource := add this other.

(* [Resource& operator-=(const Resource& other)]: the object after the
   call, and the exception that left it when [operator-] threw. *)
Definition sub_assign (this other : Resource) : Resource * option exn :=
  match sub this other with
  | Ok r => (r, None)
  | Throw e => (this, Some e)
  end.

(* The loop of [canAfford] over the entries of [cost]. *)
Fixpoint afford_loop (this : Resource) (es : list (string * Z)) : bool :=
  match es with
  | [] => true
  | (k, v) :: es' =>
      match this !! k with
      | None => false
      | Some have => if have <? v then false else afford_loop this es'
      end
  end.

(* [bool canAfford(const Resource& cost) const] *)
Definition canAfford (this cost : Resource) : bool :=
  afford_loop this (entries cost).

(* [void loadFromFile(std::ifstream& file)], for the pairs of type and
   amount the file lists after their count: the map is cleared and filled
   with them. *)
Definition loadFromFile (file : list (string * Z)) (this : Resource) : Resource :=
  foldl (λ resources p, <[p.1 := p.2]> resources) ∅ file.

End Res.

(** ** [class Building] and its subclasses *)

Module Building.

(* The dynamic class of a building. *)
Inductive Kind : Type := SolarPanel | Greenhouse | OxygenGenerator | MaterialFactory.

Record t : Type := mk {
  kind : Kind;
  name : string;
  cost : Resource;
  production : Resource;
  level : Z;
  operational : bool
}.

Definition with_cost (f : Resource -> Resource) (b : t) : t :=
  mk (kind b) (name b) (f (cost b)) (production b) (level b) (operational b).
Definition with_production (f : Resource -> Resource) (b : t) : t :=
  mk (kind b) (name b) (cost b) (f (production b)) (level b) (operational b).

(* [Building(buildingName)]: [cost] and [production] are [Resource()]. *)
Definition new (k : Kind) (buildingName : string) : t :=
  mk k buildingName Res.new Res.new 1 true.

Definition newSolarPanel : t :=
  with_production (Res.set "energy" 15)
    (with_cost (Res.set "materials" 20) (new SolarPanel "Solar Panel")).

Definition newGreenhouse : t :=
  with_production (Res.set "food" 20)
    (with_cost (Res.set "energy" 10)
      (with_cost (Res.set "materials" 30) (new Greenhouse "Greenhouse"))).

Definition newOxygenGenerator : t :=
  with_production (Res.set "oxygen" 10)
    (with_cost (Res.set "energy" 15)
      (with_cost (Res.set "materials" 25) (new OxygenGenerator "Oxygen Generator"))).

Definition newMaterialFactory : t :=
  with_production (Res.set "materials" 8)
    (with_cost (Res.set "energy" 20)
      (with_cost (Res.set "materials" 40) (new MaterialFactory "Material Factory"))).

(* The resource kind a subclass names in [produce]. *)
Definition product (k : Kind) : string :=
  match k with
  | SolarPanel => "energy"
  | Greenhouse => "food"
  | OxygenGenerator => "oxygen"
  | MaterialFactory => "materials"
  end.

(* The body the four overrides of [produce] share, for the key [key]:
     if(!operational) return Resource();
     Resource output;
     output[key] = production[key] * level;
     return output;
   [production[key]] goes through the non-const [operator[]]. *)
Definition produce_key (key : string) (b : t) : Resource * t :=
  if negb (operational b) then (Res.new, b)
  else
    (Res.set key (Int.mul (Res.qty (production b) key) (level b)) Res.new,
     with_production (Res.touch key) b).

(* [Resource produce()], dispatched on the dynamic class. *)
Definition produce (b : t) : Resource * t :=
  match kind b with
  | SolarPanel => produce_key "energy" b
  | Greenhouse => produce_key "food" b
  | OxygenGenerator => produce_key "oxygen" b
  | MaterialFactory => produce_key "materials" b
  end.

(* [void upgrade()] *)
Definition upgrade (b : t) : t :=
  with_production (Res.incr "materials" 5)
    (mk (kind b) (name b) (cost b) (production b) (Int.add (level b) 1) (operational b)).

Definition getCost (b : t) : Resource := cost b.
Definition isOperational (b : t) : bool := operational b.
Definition setOperational (status : bool) (b : t) : t :=
  mk (kind b) (name b) (cost b) (production b) (level b) status.

End Building.

(** ** [class Colonist] *)

Module Colonist.

Record t : Type := mk {
  name : string;
  specialization : string;
  experience : Z;
  health : Z;
  assigned : bool
}.

(* [Colonist(colonistName, spec)] *)
Definition new (colonistName spec : string) : t := mk colonistName spec 0 100 false.

(* [Resource work()]: the output and the colonist after the call. *)
Definition work (c : t) : result (Resource * t) :=
  if health c <? 50 then Throw (ColonistException (name c +:+ " is too sick to work"))
  else
    let experience' := Int.add (experience c) 1 in
    let c' := mk (name c) (specialization c) experience' (health c) (assigned c) in
    let output :=
      if String.eqb (specialization c) "Engineer" then
        Res.set "materials" (Int.add 5 (Int.div experience' 10)) Res.new
      else if String.eqb (specialization c) "Scientist" then
        Res.set "oxygen" (Int.add 2 (Int.div experience' 20))
          (Res.set "energy" (Int.add 3 (Int.div experience' 15)) Res.new)
      else if String.eqb (specialization c) "Farmer" then
        Res.set "food" (Int.add 8 (Int.div experience' 8)) Res.new
      else
        Res.set "food" 2 (Res.set "materials" 2 Res.new) in
    Ok (output, c').

(* [void rest()] *)
Definition rest (c : t) : t :=
  mk (name c) (specialization c) (experience c) (Int.min 100 (Int.add (health c) 10)) false.

Definition setAssigned (status : bool) (c : t) : t :=
  mk (name c) (specialization c) (experience c) (health c) status.

(* [void takeDamage(int damage)]: the health is updated before the throw. *)
Definition takeDamage (damage : Z) (c : t) : t * option exn :=
  let health' := Int.max 0 (Int.sub (health c) damage) in
  let c' := mk (name c) (specialization c) (experience c) health' (assigned c) in
  if health' =? 0 then (c', Some (ColonistException (name c +:+ " has died")))
  else (c', None).

End Colonist.

(** ** [class Event] and its subclasses *)

Module Event.

(* The dynamic class of an event. *)
Inductive Kind : Type := SolarStorm | TradeShip | MeteorShower.

Record t : Type := mk {
  kind : Kind;
  name : string;
  description : string;
  resourceEffect : Resource;
  probability : Z
}.

(* [Event(eventName, desc, prob)]: [resourceEffect] is [Resource()]. *)
Definition new (k : Kind) (eventName desc : string) (prob : Z) : t :=
  mk k eventName desc Res.new prob.

(* [void setResourceEffect(resource, amount)] *)
Definition setResourceEffect (resource : string) (amount : Z) (e : t) : t :=
  mk (kind e) (name e) (description e) (Res.set resource amount (resourceEffect e))
     (probability e).

Definition newSolarStorm : t :=
  setResourceEffect "energy" (-30)
    (new SolarStorm "Solar Storm" "A solar storm damages energy systems!" 15).

Definition newTradeShip : t :=
  setResourceEffect "food" 15
    (setResourceEffect "materials" 20
      (new TradeShip "Trade Ship Arrival" "A trade ship offers resources!" 25)).

Definition newMeteorShower : t :=
  setResourceEffect "oxygen" (-10)
    (setResourceEffect "materials" 30
      (new MeteorShower "Meteor Shower"
         "Meteors provide rare materials but damage buildings!" 10)).

Definition getProbability (e : t) : Z := probability e.

(* [Event::execute]: [resources += resourceEffect] inside a [try]; the
   [catch] is never entered because [operator+] has no [throw]. *)
Definition execute_base (e : t) (resources : Resource) : Resource :=
  Res.add_assign resources (resourceEffect e).

(* The loop of [SolarStorm::execute] over the roster, with its [break]. *)
Fixpoint repair_loop (colonists : list Colonist.t) (resources : Resource) : Resource :=
  match colonists with
  | [] => resources
  | c :: cs =>
      if String.eqb (Colonist.specialization c) "Engineer"
      then Res.incr "energy" 10 resources
      else repair_loop cs resources
  end.

(* [virtual void execute(resources, colonists)], dispatched on the dynamic
   class; only [SolarStorm] overrides it. *)
Definition execute (e : t) (resources : Resource) (colonists : list Colonist.t) : Resource :=
  match kind e with
  | SolarStorm => repair_loop colonists (execute_base e resources)
  | TradeShip | MeteorShower => execute_base e resources
  end.

End Event.

(** ** [enum class GamePhase] and [class GameState] *)

Inductive GamePhase : Type := SETUP | PRODUCTION | EVENT | MANAGEMENT | END.

Module GameState.

Record t : Type := mk {
  currentPhase : GamePhase;
  turn : Z;
  colonistCount : Z;
  gameRunning : bool
}.

(* [GameState()] *)
Definition new : t := mk SETUP 1 0 true.

(* [void nextPhase()] *)
Definition nextPhase (g : t) : t :=
  match currentPhase g with
  | SETUP => mk PRODUCTION (turn g) (colonistCount g) (gameRunning g)
  | PRODUCTION => mk EVENT (turn g) (colonistCount g) (gameRunning g)
  | EVENT => mk MANAGEMENT (turn g) (colonistCount g) (gameRunning g)
  | MANAGEMENT => mk PRODUCTION (Int.add (turn g) 1) (colonistCount g) (gameRunning g)
  | END => mk END (turn g) (colonistCount g) false
  end.

(* [void endGame()] *)
Definition endGame (g : t) : t := mk END (turn g) (colonistCount g) false.

Definition getCurrentPhase (g : t) : GamePhase := currentPhase g.
Definition getTurn (g : t) : Z := turn g.
Definition isGameRunning (g : t) : bool := gameRunning g.
Definition getColonistCount (g : t) : Z := colonistCount g.
Definition setColonistCount (count : Z) (g : t) : t :=
  mk (currentPhase g) (turn g) count (gameRunning g).

End GameState.

(** ** [class GameEngine] *)

(* [container.size()] converted to [int]. *)
Definition size_int {A} (l : list A) : Z := Int.wrap (Z.of_nat (length l)).

(* What one pass of the game loop reads from outside: the number the random
   generator yields in the Event phase, and the numbers typed at the
   prompts of the Management phase. *)
Record Input : Type := mkInput {
  roll : Z;            (* [eventChance(randomGenerator)] *)
  choice : Z;          (* [handleManagementPhase]: [std::cin >> choice] *)
  structure : Z;       (* [buildStructure]: [std::cin >> choice] *)
  colonist : N         (* [assignColonists]: [std::cin >> choice], a [size_t] *)
}.

(* Which branch [checkGameConditions] took. *)
Inductive Verdict : Type := Win | LoseResources | LoseRoster | Continue.

(* The calls the body of the game loop makes, in order. *)
Inductive Call : Type :=
  | CallHandler (p : GamePhase)
  | CallNextPhase
  | CallCheckGameConditions (v : Verdict).

Module GameEngine.

Record t : Type := mk {
  gameState : GameState.t;
  colonyResources : Resource;
  buildings : list Building.t;
  colonists : list Colonist.t;
  events : list Event.t
}.

Definition with_gameState (f : GameState.t -> GameState.t) (s : t) : t :=
  mk (f (gameState s)) (colonyResources s) (buildings s) (colonists s) (events s).
Definition with_colonyResources (f : Resource -> Resource) (s : t) : t :=
  mk (gameState s) (f (colonyResources s)) (buildings s) (colonists s) (events s).
Definition with_buildings (f : list Building.t -> list Building.t) (s : t) : t :=
  mk (gameState s) (colonyResources s) (f (buildings s)) (colonists s) (events s).
Definition with_colonists (f : list Colonist.t -> list Colonist.t) (s : t) : t :=
  mk (gameState s) (colonyResources s) (buildings s) (f (colonists s)) (events s).
Definition with_events (f : list Event.t -> list Event.t) (s : t) : t :=
  mk (gameState s) (colonyResources s) (buildings s) (colonists s) (f (events s)).

(* The members as their default constructors leave them. *)
Definition members : t := mk GameState.new Res.new [] [] [].

(* [void setupEvents()] *)
Definition setupEvents (s : t) : t :=
  with_events (λ evs, evs ++ [Event.newSolarStorm] ++ [Event.newTradeShip]
                          ++ [Event.newMeteorShower]) s.

(* [void initializeGame()]; [loadConfiguration] only fills [config]. *)
Definition initializeGame (s : t) : t :=
  let s := setupEvents s in
  let s := with_colonists (λ cs, cs ++ [Colonist.new "Alex Chen" "Engineer"]
                                    ++ [Colonist.new "Maria Santos" "Scientist"]
                                    ++ [Colonist.new "James Wilson" "Farmer"]) s in
  let s := with_gameState (GameState.setColonistCount (size_int (colonists s))) s in
  with_buildings (λ bs, bs ++ [Building.newSolarPanel] ++ [Building.newGreenhouse]) s.

(* [GameEngine()] *)
Definition new : t := initializeGame members.

(* The first loop of [handleProductionPhase]. [getProductionInfo] reads
   the key [produce] has just touched, so it does not throw. *)
Fixpoint building_loop (bs : list Building.t) (totalProduction : Resource)
  : list Building.t * Resource :=
  match bs with
  | [] => ([], totalProduction)
  | b :: bs' =>
      if Building.isOperational b then
        let '(buildingOutput, b') := Building.produce b in
        let '(bs'', total) :=
          building_loop bs' (Res.add_assign totalProduction buildingOutput) in
        (b' :: bs'', total)
      else
        let '(bs'', total) := building_loop bs' totalProduction in
        (b :: bs'', total)
  end.

(* The second loop of [handleProductionPhase]; a [throw] of [work] leaves
   the loop with the colonists as they are at that point. *)
Fixpoint colonist_loop (cs : list Colonist.t) (totalProduction : Resource)
  : list Colonist.t * result Resource :=
  match cs with
  | [] => ([], Ok totalProduction)
  | c :: cs' =>
      if negb (Colonist.assigned c) && (50 <? Colonist.health c) then
        match Colonist.work c with
        | Throw e => (c :: cs', Throw e)
        | Ok (colonistOutput, c') =>
            let '(cs'', r) :=
              colonist_loop cs' (Res.add_assign totalProduction colonistOutput) in
            (c' :: cs'', r)
        end
      else
        let '(cs'', r) := colonist_loop cs' totalProduction in
        (c :: cs'', r)
  end.

(* The [consumption] of [handleProductionPhase]. *)
Definition consumption (s : t) : Resource :=
  Res.set "energy" (Int.wrap (Z.of_nat (length (buildings s)) * 2))
    (Res.set "oxygen" (Int.wrap (Z.of_nat (length (colonists s)) * 2))
      (Res.set "food" (Int.wrap (Z.of_nat (length (colonists s)) * 3)) Res.new)).

(* [void handleProductionPhase()]: the engine after the call and the
   exception that left it, if any. *)
Definition handleProductionPhase (s : t) : t * option exn :=
  let '(bs, total) := building_loop (buildings s) Res.new in
  let s := with_buildings (λ _, bs) s in
  let '(cs, r) := colonist_loop (colonists s) total in
  let s := with_colonists (λ _, cs) s in
  match r with
  | Throw e => (s, Some e)
  | Ok totalProduction =>
      let s := with_colonyResources (λ r, Res.add_assign r totalProduction) s in
      let '(res, e) := Res.sub_assign (colonyResources s) (consumption s) in
      (with_colonyResources (λ _, res) s, e)
  end.

(* The scan of [handleEventPhase]: the event whose [execute] is called. *)
Fixpoint triggered (roll : Z) (evs : list Event.t) : option Event.t :=
  match evs with
  | [] => None
  | e :: evs' =>
      if roll <=? Event.getProbability e then Some e else triggered roll evs'
  end.

(* [void handleEventPhase()], for the number [roll] the generator yields. *)
Definition handleEventPhase (roll : Z) (s : t) : t :=
  match triggered roll (events s) with
  | Some e => with_colonyResources (λ r, Event.execute e r (colonists s)) s
  | None => s
  end.

(* The [switch] of [buildStructure]: the building made for the number read
   at its prompt, none for a number that is not on the menu. *)
Definition newBuilding (choice : Z) : option Building.t :=
  match choice with
  | 1 => Some Building.newSolarPanel
  | 2 => Some Building.newGreenhouse
  | 3 => Some Building.newOxygenGenerator
  | 4 => Some Building.newMaterialFactory
  | _ => None
  end.

(* [void buildStructure()], for the number read at its prompt. *)
Definition buildStructure (choice : Z) (s : t) : t * option exn :=
  match newBuilding choice with
  | None => (s, None)
  | Some b =>
      let cost := Building.getCost b in
      if Res.canAfford (colonyResources s) cost then
        match Res.sub_assign (colonyResources s) cost with
        | (res, Some e) => (with_colonyResources (λ _, res) s, Some e)
        | (res, None) =>
            (with_buildings (λ bs, bs ++ [b]) (with_colonyResources (λ _, res) s), None)
        end
      else (s, None)
  end.

(* [void assignColonists()], for the number read at its prompt. *)
Definition assignColonists (choice : N) (s : t) : t :=
  if (0 <? choice)%N && (choice <=? N.of_nat (length (colonists s)))%N
  then with_colonists (alter (Colonist.setAssigned true) (N.to_nat (choice - 1))) s
  else s.

(* [void restColonists()] *)
Definition restColonists (s : t) : t := with_colonists (map Colonist.rest) s.

(* [void saveGame()] writes a file and catches what it throws. *)
Definition saveGame (s : t) : t := s.

(* [void handleManagementPhase()] *)
Definition handleManagementPhase (inp : Input) (s : t) : t * option exn :=
  match choice inp with
  | 1 => buildStructure (structure inp) s
  | 2 => (assignColonists (colonist inp) s, None)
  | 3 => (restColonists s, None)
  | 4 => (saveGame s, None)
  | _ => (s, None)
  end.

(* [void checkGameConditions()]; [colonyResources[...]] is the non-const
   [operator[]], and [||] evaluates its right operand only when needed. *)
Definition checkGameConditions (s : t) : t * Verdict :=
  if (10 <=? GameState.getTurn (gameState s)) && (3 <=? Z.of_nat (length (colonists s)))
  then (with_gameState GameState.endGame s, Win)
  else
    let food := Res.qty (colonyResources s) "food" in
    let s := with_colonyResources (Res.touch "food") s in
    if food <=? 0 then (with_gameState GameState.endGame s, LoseResources)
    else
      let oxygen := Res.qty (colonyResources s) "oxygen" in
      let s := with_colonyResources (Res.touch "oxygen") s in
      if oxygen <=? 0 then (with_gameState GameState.endGame s, LoseResources)
      else
        match colonists s with
        | [] => (with_gameState GameState.endGame s, LoseRoster)
        | _ :: _ => (s, Continue)
        end.

(* The [switch] of [runGameLoop] inside its [try]; [handleSetupPhase] and
   [handleEndGame] only print and wait for a key. *)
Definition handlePhase (inp : Input) (s : t) : t * option exn :=
  match GameState.getCurrentPhase (gameState s) with
  | SETUP => (s, None)
  | PRODUCTION => handleProductionPhase s
  | EVENT => (handleEventPhase (roll inp) s, None)
  | MANAGEMENT => handleManagementPhase inp s
  | END => (s, None)
  end.

(* [void handleError()] only prints. *)
Definition handleError (s : t) : t := s.

(* The body of the [while] of [runGameLoop]: the engine after the pass and
   the calls made. *)
Definition loopBody (inp : Input) (s : t) : t * list Call :=
  let p := GameState.getCurrentPhase (gameState s) in
  let s :=
    match handlePhase inp s with
    | (s', None) => s'
    | (s', Some _) => handleError s'
    end in
  let s := with_gameState GameState.nextPhase s in
  let '(s, v) := checkGameConditions s in
  (s, [CallHandler p; CallNextPhase; CallCheckGameConditions v]).

(* [void runGameLoop()] over the inputs of its successive passes: the loop
   stops when the game no longer runs (or the inputs are used up). *)
Fixpoint runGameLoop (inputs : list Input) (s : t) : t * list Call :=
  match inputs with
  | [] => (s, [])
  | inp :: inputs' =>
      if GameState.isGameRunning (gameState s) then
        let '(s', calls) := loopBody inp s in
        let '(s'', calls') := runGameLoop inputs' s' in
        (s'', calls ++ calls')
      else (s, [])
  end.

(* The engine states the game loop passes through. *)
Inductive reachable : t -> Prop :=
  | reachable_new : reachable new
  | reachable_pass inp s :
      reachable s ->
      GameState.isGameRunning (gameState s) = true ->
      reachable (loopBody inp s).1.

End GameEngine.

(** ** Auxiliary notions used in the statements *)

(* Some colonist of the roster is an Engineer. *)
Definition has_engineer (colonists : list Colonist.t) : bool :=
  existsb (λ c, String.eqb (Colonist.specialization c) "Engineer") colonists.

(* The name and specialization of a colonist: what identifies a roster
   entry across the updates of its experience, health and assignment. *)
Definition identity (c : Colonist.t) : string * string :=
  (Colonist.name c, Colonist.specialization c).

(* The value [operator-] computes for the kind [k] of its argument before
   it tests the sign. *)
Definition tentative (this : Resource) (k : string) (v : Z) : Z :=
  Int.sub (Res.qty this k) v.

(* A resource given by its four quantities. *)
Definition quantities (food energy materials oxygen : Z) : Resource :=
  <["oxygen" := oxygen]> (<["materials" := materials]>
    (<["energy" := energy]> (<["food" := food]> ∅))).

(* A ledger read back by [loadFromFile] from a file that lists only
   energy, materials and oxygen. *)
Definition ledger_without_food : Resource :=
  Res.loadFromFile [("energy", 100); ("materials", 50); ("oxygen", 100)] Res.new.

(* The aggregate [handleProductionPhase] adds to the ledger. *)
Definition totalProduction (s : GameEngine.t) : result Resource :=
  (GameEngine.colonist_loop (GameEngine.colonists s)
     (GameEngine.building_loop (GameEngine.buildings s) Res.new).2).2.

(* The engine at the point of a pass where [checkGameConditions] is
   called: after the handler of the current phase and after [nextPhase]. *)
Definition beforeCheck (inp : Input) (s : GameEngine.t) : GameEngine.t :=
  GameEngine.with_gameState GameState.nextPhase (GameEngine.handlePhase inp s).1.

(* A pass without event (the roll is 100) and without management action
   (menu entry 5). *)
Definition idle : Input := mkInput 100 5 0 0.

(* The roster [initializeGame] creates. *)
Definition founders : list (string * string) :=
  [("Alex Chen", "Engineer"); ("Maria Santos", "Scientist"); ("James Wilson", "Farmer")].

(* A colonist the Production phase lets work: not assigned, health above 50. *)
Definition eligible (c : Colonist.t) : bool :=
  negb (Colonist.assigned c) && (50 <? Colonist.health c).

(* A colonist with one more unit of experience, as [work] leaves it. *)
Definition worked (c : Colonist.t) : Colonist.t :=
  Colonist.mk (Colonist.name c) (Colonist.specialization c)
    (Int.add (Colonist.experience c) 1) (Colonist.health c) (Colonist.assigned c).

(* The rate [produce] multiplies by the level. *)
Definition rate (b : Building.t) : Z :=
  Res.qty (Building.production b) (Building.product (Building.kind b)).

(* An engine whose ledger is so short of energy that the consumption of the
   Production phase cannot be paid. *)
Definition starved : GameEngine.t :=
  GameEngine.with_colonyResources (λ _, quantities 100 (-1000) 50 100) GameEngine.new.

(* The buildings of the build menu, as their constructors make them. *)
Definition menu : list Building.t :=
  [Building.newSolarPanel; Building.newGreenhouse;
   Building.newOxygenGenerator; Building.newMaterialFactory].

(* The number of passes of the game loop behind a game state: one for the
   Setup phase and three for each turn. *)
Definition passes (g : GameState.t) : Z :=
  match GameState.currentPhase g with
  | SETUP => 0
  | PRODUCTION => 3 * GameState.turn g - 2
  | EVENT => 3 * GameState.turn g - 1
  | MANAGEMENT => 3 * GameState.turn g
  | END => 28
  end.

(* A colonist in full health with at most [n] units of experience. *)
Definition healthy (n : Z) (c : Colonist.t) : Prop :=
  Colonist.health c = 100 ∧ 0 <= Colonist.experience c <= n.

(* A ledger of exactly the four kinds, none negative and none above
   100 + 2000 n. *)
Definition bounded (n : Z) (r : Resource) : Prop :=
  ∃ f e m o,
    r = quantities f e m o
    ∧ 0 <= f <= 100 + 2000 * n ∧ 0 <= e <= 100 + 2000 * n
    ∧ 0 <= m <= 100 + 2000 * n ∧ 0 <= o <= 100 + 2000 * n.

(* A ledger of exactly the four kinds that holds at least what a running
   game holds when it enters the phase [p], and at most 100 + 2000 n. *)
Definition stocked (p : GamePhase) (n : Z) (r : Resource) : Prop :=
  ∃ f e m o,
    r = quantities f e m o
    ∧ f <= 100 + 2000 * n ∧ e <= 100 + 2000 * n
    ∧ m <= 100 + 2000 * n ∧ o <= 100 + 2000 * n
    ∧ match p with
      | SETUP | PRODUCTION => 100 <= f ∧ 0 <= e ∧ 0 <= m ∧ 100 <= o
      | EVENT => 300 <= f ∧ 100 <= e ∧ 100 <= m ∧ 300 <= o
      | MANAGEMENT => 300 <= f ∧ 80 <= e ∧ 100 <= m ∧ 300 <= o
      | END => False
      end.

(* What holds of the engine while a game is running. *)
Definition thriving (s : GameEngine.t) : Prop :=
  GameState.gameRunning (GameEngine.gameState s) = true
  ∧ GameState.currentPhase (GameEngine.gameState s) ≠ END
  ∧ 1 <= GameState.turn (GameEngine.gameState s) <= 9
  ∧ (GameState.currentPhase (GameEngine.gameState s) = SETUP →
     GameState.turn (GameEngine.gameState s) = 1)
  ∧ GameState.colonistCount (GameEngine.gameState s) = 3
  ∧ GameEngine.events s = GameEngine.events GameEngine.new
  ∧ identity <$> GameEngine.colonists s = founders
  ∧ Forall (healthy (passes (GameEngine.gameState s))) (GameEngine.colonists s)
  ∧ (∃ rest,
       GameEngine.buildings s = Building.newSolarPanel :: Building.newGreenhouse :: rest
       ∧ Forall (λ b, b ∈ menu) rest
       ∧ Z.of_nat (length rest) < GameState.turn (GameEngine.gameState s))
  ∧ stocked (GameState.currentPhase (GameEngine.gameState s))
            (passes (GameEngine.gameState s)) (GameEngine.colonyResources s).

(* What holds of the engine when a game is over. *)
Definition won (s : GameEngine.t) : Prop :=
  GameEngine.gameState s = GameState.mk END 10 3 false
  ∧ bounded 28 (GameEngine.colonyResources s).

(** * Properties *)

(** ** C++ [int] arithmetic *)

Section IntFacts.

Lemma wrap_in_range z : Int.in_range (Int.wrap z).
Proof.
  unfold Int.in_range, Int.wrap, Int.min_int, Int.max_int.
  pose proof (Z.mod_pos_bound (z + 2147483648) 4294967296). lia.
Qed.

Lemma wrap_id z : Int.in_range z -> Int.wrap z = z.
Proof.
  unfold Int.in_range, Int.wrap, Int.min_int, Int.max_int. intros Hz.
  rewrite Z.mod_small; lia.
Qed.

Lemma wrap_add_l a b : Int.wrap (Int.wrap a + b) = Int.wrap (a + b).
Proof.
  unfold Int.wrap. f_equal.
  replace ((a + 2147483648) mod 4294967296 - 2147483648 + b + 2147483648)
    with ((a + 2147483648) mod 4294967296 + b) by lia.
  replace (a + b + 2147483648) with ((a + 2147483648) + b) by lia.
  rewrite Zplus_mod_idemp_l. reflexivity.
Qed.

Lemma add_add a b c : Int.add (Int.add a b) c = Int.add a (b + c).
Proof. unfold Int.add. rewrite wrap_add_l. f_equal. lia. Qed.

Lemma add_exact a b : Int.in_range (a + b) -> Int.add a b = a + b.
Proof. apply wrap_id. Qed.

Lemma sub_exact a b : Int.in_range (a - b) -> Int.sub a b = a - b.
Proof. apply wrap_id. Qed.

Lemma mul_exact a b : Int.in_range (a * b) -> Int.mul a b = a * b.
Proof. apply wrap_id. Qed.

End IntFacts.

(** ** The ledger *)

Section Ledger.

Implicit Types (this other cost res : Resource) (es : list (string * Z)).
Implicit Types (k : string) (v : Z).

#[local] Instance key_le_trans : Transitive Res.key_le.
Proof. intros p q r. unfold Res.key_le. apply transitivity. Qed.

#[local] Instance key_le_total : Total Res.key_le.
Proof. intros p q. unfold Res.key_le. apply total, _. Qed.

Lemma entries_perm this : Res.entries this ≡ₚ map_to_list this.
Proof. apply merge_sort_Permutation. Qed.

Lemma elem_of_entries this k v : (k, v) ∈ Res.entries this ↔ this !! k = Some v.
Proof. rewrite entries_perm. apply elem_of_map_to_list. Qed.

Lemma NoDup_entries this : NoDup (Res.entries this).*1.
Proof. rewrite entries_perm. apply NoDup_fst_map_to_list. Qed.

Lemma entries_sorted this : StronglySorted Res.key_le (Res.entries this).
Proof. apply StronglySorted_merge_sort; apply _. Qed.

Lemma not_elem_of_entries this k :
  k ∉ (Res.entries this).*1 ↔ this !! k = None.
Proof.
  rewrite list_elem_of_fmap. split.
  - intros Hn. destruct (this !! k) as [v|] eqn:E; [|done].
    exfalso. apply Hn. exists (k, v). split; [done|]. by apply elem_of_entries.
  - intros E [[k' v] [-> Hin]]. apply elem_of_entries in Hin. simpl in *. congruence.
Qed.

Lemma qty_insert k x res : Res.qty (<[k := x]> res) k = x.
Proof. unfold Res.qty. by rewrite lookup_insert_eq. Qed.

Lemma qty_insert_ne k k' x res : k ≠ k' → Res.qty (<[k := x]> res) k' = Res.qty res k'.
Proof. intros. unfold Res.qty. by rewrite lookup_insert_ne. Qed.

Lemma qty_lookup res k v : res !! k = Some v → Res.qty res k = v.
Proof. unfold Res.qty. by intros ->. Qed.

(** The loop of [operator+] adds key by key. *)
Lemma add_loop_lookup es :
  NoDup es.*1 → ∀ res,
  (∀ k v, (k, v) ∈ es → Res.add_loop res es !! k = Some (Int.add (Res.qty res k) v))
  ∧ (∀ k, k ∉ es.*1 → Res.add_loop res es !! k = res !! k).
Proof.
  induction es as [|[k0 v0] es IH]; intros Hnd res.
  - split; [intros k v H; by apply elem_of_nil in H | done].
  - rewrite fmap_cons, NoDup_cons in Hnd. destruct Hnd as [Hk0 Hnd]. simpl in Hk0. simpl.
    destruct (IH Hnd (<[k0 := Int.add (Res.qty res k0) v0]> res)) as [IHin IHout].
    split.
    + intros k v [Heq | Hin]%elem_of_cons.
      * injection Heq as -> ->. rewrite IHout by done. by rewrite lookup_insert_eq.
      * assert (k0 ≠ k).
        { intros ->. apply Hk0. apply list_elem_of_fmap. by exists (k, v). }
        rewrite (IHin k v Hin). by rewrite qty_insert_ne.
    + intros k Hk. apply not_elem_of_cons in Hk as [Hne Hk]. simpl in Hne.
      rewrite IHout by done. by rewrite lookup_insert_ne.
Qed.

Lemma add_lookup this other k :
  Res.add this other !! k =
  match other !! k with
  | Some v => Some (Int.add (Res.qty this k) v)
  | None => this !! k
  end.
Proof.
  unfold Res.add.
  destruct (add_loop_lookup (Res.entries other) (NoDup_entries other) this) as [Hin Hout].
  destruct (other !! k) as [v|] eqn:E.
  - apply Hin. by apply elem_of_entries.
  - apply Hout. by apply not_elem_of_entries.
Qed.

Lemma add_qty this other k :
  Res.qty (Res.add this other) k =
  match other !! k with
  | Some v => Int.add (Res.qty this k) v
  | None => Res.qty this k
  end.
Proof. unfold Res.qty at 1. rewrite add_lookup. by destruct (other !! k). Qed.

Lemma qty_insert_fresh k0 x res es k v :
  k0 ∉ es.*1 → (k, v) ∈ es → Res.qty (<[k0 := x]> res) k = Res.qty res k.
Proof.
  intros Hk0 Hin. apply qty_insert_ne. intros ->.
  apply Hk0, list_elem_of_fmap. by exists (k, v).
Qed.

Lemma tentative_insert_fresh k0 x res es :
  k0 ∉ es.*1 →
  Forall (λ p, 0 <= tentative (<[k0 := x]> res) p.1 p.2) es
  ↔ Forall (λ p, 0 <= tentative res p.1 p.2) es.
Proof.
  intros Hk0. rewrite !Forall_forall.
  split; intros H [k v] Hin; specialize (H (k, v) Hin); simpl in *;
    unfold tentative in *; by rewrite (qty_insert_fresh k0 x res es k v) in *.
Qed.

(** The loop of [operator-]: where it stops, and what it returns. *)
Lemma sub_loop_throw es :
  NoDup es.*1 → ∀ res e,
  Res.sub_loop res es = Throw e →
  ∃ pre k v post,
    es = pre ++ (k, v) :: post
    ∧ Forall (λ p, 0 <= tentative res p.1 p.2) pre
    ∧ tentative res k v < 0
    ∧ e = ResourceException ("Insufficient " +:+ k).
Proof.
  induction es as [|[k0 v0] es IH]; intros Hnd res e; [done|].
  rewrite fmap_cons, NoDup_cons in Hnd. destruct Hnd as [Hk0 Hnd]. simpl in Hk0. simpl. rewrite qty_insert.
  destruct (Z.ltb_spec (Int.sub (Res.qty res k0) v0) 0) as [Hneg | Hpos].
  - intros [= <-]. by exists [], k0, v0, es.
  - intros (pre & k & v & post & -> & Hpre & Hk & ->)%IH; [|done].
    rewrite fmap_app in Hk0. apply not_elem_of_app in Hk0 as [Hk0 Hk0'].
    exists ((k0, v0) :: pre), k, v, post. split_and!; [done | | | done].
    + constructor; [done|]. by apply (tentative_insert_fresh k0) in Hpre.
    + unfold tentative in *. rewrite qty_insert_ne in Hk; [done|].
      intros ->. apply Hk0'. simpl. left.
Qed.

Lemma sub_loop_ok es :
  NoDup es.*1 → ∀ res res',
  Res.sub_loop res es = Ok res' →
  Forall (λ p, 0 <= tentative res p.1 p.2) es
  ∧ (∀ k v, (k, v) ∈ es → res' !! k = Some (tentative res k v))
  ∧ (∀ k, k ∉ es.*1 → res' !! k = res !! k).
Proof.
  induction es as [|[k0 v0] es IH]; intros Hnd res res'.
  - intros [= <-]. split_and!; [done | | done].
    intros k v H. by apply elem_of_nil in H.
  - rewrite fmap_cons, NoDup_cons in Hnd. destruct Hnd as [Hk0 Hnd]. simpl in Hk0. simpl. rewrite qty_insert.
    destruct (Z.ltb_spec (Int.sub (Res.qty res k0) v0) 0) as [Hneg | Hpos]; [done|].
    intros (Hall & Hin & Hout)%IH; [|done]. split_and!.
    + constructor; [done|]. by apply (tentative_insert_fresh k0) in Hall.
    + intros k v [Heq | Hk]%elem_of_cons.
      * injection Heq as -> ->. rewrite Hout by done. by rewrite lookup_insert_eq.
      * rewrite (Hin k v Hk). unfold tentative.
        by rewrite (qty_insert_fresh k0 _ res es k v).
    + intros k Hk. apply not_elem_of_cons in Hk as [Hne Hk]. simpl in Hne.
      rewrite Hout by done. by rewrite lookup_insert_ne.
Qed.

Lemma sub_loop_total es :
  NoDup es.*1 → ∀ res,
  Forall (λ p, 0 <= tentative res p.1 p.2) es →
  ∃ res', Res.sub_loop res es = Ok res'.
Proof.
  intros Hnd res Hall. destruct (Res.sub_loop res es) as [res'|e] eqn:E; [by eexists|].
  apply sub_loop_throw in E as (pre & k & v & post & -> & _ & Hk & _); [|done].
  apply Forall_app in Hall as [_ Hall]. apply Forall_cons in Hall as [Hk' _].
  simpl in Hk'. lia.
Qed.

Lemma Forall_entries (P : string → Z → Prop) other :
  Forall (λ p, P p.1 p.2) (Res.entries other) ↔ ∀ k v, other !! k = Some v → P k v.
Proof.
  rewrite Forall_forall. split.
  - intros H k v E. by apply (H (k, v)), elem_of_entries.
  - intros H [k v] Hin. by apply H, elem_of_entries.
Qed.

Lemma sub_ok_lookup this other after k :
  Res.sub this other = Ok after →
  after !! k =
  match other !! k with
  | Some v => Some (tentative this k v)
  | None => this !! k
  end.
Proof.
  unfold Res.sub. intros (_ & Hin & Hout)%sub_loop_ok; [|apply NoDup_entries].
  destruct (other !! k) as [v|] eqn:E.
  - by apply Hin, elem_of_entries.
  - by apply Hout, not_elem_of_entries.
Qed.

Lemma tentative_entries this other :
  Forall (λ p, 0 <= tentative this p.1 p.2) (Res.entries other)
  ↔ ∀ k v, other !! k = Some v → 0 <= tentative this k v.
Proof. apply (Forall_entries (λ k v, 0 <= tentative this k v)). Qed.

(** [canAfford] in terms of lookups. *)
Lemma afford_loop_true this es :
  Res.afford_loop this es = true
  ↔ Forall (λ p, ∃ have, this !! p.1 = Some have ∧ p.2 <= have) es.
Proof.
  induction es as [|[k v] es IH]; simpl.
  - split; [constructor | done].
  - rewrite Forall_cons, <- IH. simpl. destruct (this !! k) as [have|].
    + destruct (Z.ltb_spec have v).
      * split; [done|]. intros [(have' & [= <-] & ?) _]. lia.
      * split; [|tauto]. intros. split; [|done]. by exists have.
    + split; [done|]. by intros [(have' & ? & _) _].
Qed.

Lemma canAfford_true this cost :
  Res.canAfford this cost = true
  ↔ ∀ k v, cost !! k = Some v → ∃ have, this !! k = Some have ∧ v <= have.
Proof.
  unfold Res.canAfford. rewrite afford_loop_true.
  apply (Forall_entries (λ k v, ∃ have, this !! k = Some have ∧ v <= have)).
Qed.

(** A call of [operator-=] that meets a negative tentative quantity. *)
Lemma sub_assign_throw this other :
  (∃ k v, other !! k = Some v ∧ tentative this k v < 0) →
  ∃ k v, other !! k = Some v ∧ tentative this k v < 0
    ∧ (∀ k' v', other !! k' = Some v' → tentative this k' v' < 0 → String.le k k')
    ∧ Res.sub_assign this other
      = (this, Some (ResourceException ("Insufficient " +:+ k))).
Proof.
  unfold Res.sub_assign. intros (k1 & v1 & E1 & Hneg1).
  destruct (Res.sub this other) as [after|e] eqn:E.
  - apply sub_loop_ok in E as (Hall & _); [|apply NoDup_entries].
    pose proof (proj1 (tentative_entries this other) Hall k1 v1 E1). lia.
  - pose proof (entries_sorted other) as Hsorted.
    apply sub_loop_throw in E as (pre & k & v & post & Hes & Hpre & Hneg & ->);
      [|apply NoDup_entries].
    exists k, v. split_and!; [| done | | done].
    + apply elem_of_entries. rewrite Hes. apply elem_of_app. right. left.
    + intros k' v' E' Hneg'. apply elem_of_entries in E'.
      rewrite Hes in E', Hsorted.
      apply StronglySorted_app in Hsorted as (_ & _ & Hsorted).
      apply StronglySorted_cons in Hsorted as [Hpost _].
      apply elem_of_app in E' as [Hin | Hin].
      * rewrite Forall_forall in Hpre. specialize (Hpre _ Hin). simpl in Hpre. lia.
      * apply elem_of_cons in Hin as [[= -> ->] | Hin]; [done|].
        rewrite Forall_forall in Hpost. apply (Hpost _ Hin).
Qed.

(** A call of [operator-=] that meets no negative tentative quantity. *)
Lemma sub_assign_ok this other :
  (∀ k v, other !! k = Some v → 0 <= tentative this k v) →
  ∃ after, Res.sub_assign this other = (after, None)
    ∧ ∀ k, after !! k =
           match other !! k with
           | Some v => Some (tentative this k v)
           | None => this !! k
           end.
Proof.
  unfold Res.sub_assign. intros Hall. apply tentative_entries in Hall.
  destruct (sub_loop_total _ (NoDup_entries other) this Hall) as [after E].
  fold (Res.sub this other) in E. rewrite E. exists after. split; [done|].
  intros k. by apply sub_ok_lookup.
Qed.

(** C4. [subtract] ([operator-=]) is all or nothing.  If the tentative
    quantity of some kind of [other] is negative, the call throws
    "Insufficient <kind>" for such a kind (the least one in key order) and
    the ledger after the call is the ledger before it.  If no tentative
    quantity is negative, the call returns normally and the ledger holds
    the tentative quantity of every kind of [other], the other kinds being
    untouched. *)
Theorem sub_assign_all_or_nothing this other :
  ((∃ k v, other !! k = Some v ∧ tentative this k v < 0) →
   ∃ k v, other !! k = Some v ∧ tentative this k v < 0
     ∧ (∀ k' v', other !! k' = Some v' → tentative this k' v' < 0 → String.le k k')
     ∧ Res.sub_assign this other
       = (this, Some (ResourceException ("Insufficient " +:+ k))))
  ∧ ((∀ k v, other !! k = Some v → 0 <= tentative this k v) →
     ∃ after, Res.sub_assign this other = (after, None)
       ∧ ∀ k, after !! k =
              match other !! k with
              | Some v => Some (tentative this k v)
              | None => this !! k
              end).
Proof. split; [apply sub_assign_throw | apply sub_assign_ok]. Qed.

(** C5, as the code has it.  [canAfford(cost)] is true exactly when the
    ledger holds every kind of [cost], with at least the amount asked; so
    it is false as soon as the ledger lacks a kind of [cost], whatever the
    amount.  When no subtraction leaves the range of [int], it is true
    exactly when the ledger holds every kind of [cost] and
    [subtract(cost)] returns normally; hence, when every kind of [cost]
    that the ledger lacks is asked with a positive amount (as when the
    ledger lacks none), exactly when [subtract(cost)] returns normally.
    ([canAfford] is a [const] method: it returns a truth value and no
    ledger.) *)
Theorem canAfford_iff_sub_assign this cost :
  (Res.canAfford this cost = true
   ↔ ∀ k v, cost !! k = Some v → ∃ have, this !! k = Some have ∧ v <= have)
  ∧ ((∃ k v, cost !! k = Some v ∧ this !! k = None) → Res.canAfford this cost = false)
  ∧ ((∀ k v, cost !! k = Some v → Int.in_range (Res.qty this k - v)) →
     (Res.canAfford this cost = true
      ↔ (∀ k v, cost !! k = Some v → is_Some (this !! k))
        ∧ ∃ after, Res.sub_assign this cost = (after, None))
     ∧ ((∀ k v, cost !! k = Some v → this !! k = None → 0 < v) →
        (Res.canAfford this cost = true
         ↔ ∃ after, Res.sub_assign this cost = (after, None)))).
Proof.
  split_and!; [apply canAfford_true | |].
  { intros (k & v & Ek & Hnone).
    destruct (Res.canAfford this cost) eqn:E; [|done].
    destruct (proj1 (canAfford_true this cost) E k v Ek) as (have & Ehave & _).
    congruence. }
  intros Hrange.
  assert (Hexact : ∀ k v, cost !! k = Some v → tentative this k v = Res.qty this k - v).
  { intros k v E. unfold tentative. by apply sub_exact, (Hrange k v). }
  assert (Hpaid : ∀ after, Res.sub_assign this cost = (after, None) →
                  ∀ k v, cost !! k = Some v → 0 <= Res.qty this k - v).
  { intros after E k v Ek. unfold Res.sub_assign in E.
    destruct (Res.sub this cost) as [after'|e] eqn:Esub; [|done].
    apply sub_loop_ok in Esub as (Hall & _); [|apply NoDup_entries].
    pose proof (proj1 (tentative_entries this cost) Hall k v Ek) as Hk.
    by rewrite (Hexact k v Ek) in Hk. }
  assert (Hfirst : Res.canAfford this cost = true
            ↔ (∀ k v, cost !! k = Some v → is_Some (this !! k))
              ∧ ∃ after, Res.sub_assign this cost = (after, None)).
  { rewrite canAfford_true. split.
    - intros Hafford. split.
      + intros k v Ek. destruct (Hafford k v Ek) as (have & Ehave & _). by exists have.
      + destruct (sub_assign_ok this cost) as (after & E & _); [|by exists after].
        intros k v E. rewrite (Hexact k v E).
        destruct (Hafford k v E) as (have & Ehave & Hle).
        rewrite (qty_lookup _ _ _ Ehave). lia.
    - intros [Hkeys [after E]] k v Ek.
      pose proof (Hpaid after E k v Ek) as Hk.
      destruct (Hkeys k v Ek) as [have Ehave]. exists have. split; [done|].
      rewrite (qty_lookup _ _ _ Ehave) in Hk. lia. }
  split; [exact Hfirst|].
  intros Hmissing. rewrite Hfirst. split; [by intros [_ ?]|].
  intros [after E]. split; [|by exists after].
  intros k v Ek. destruct (this !! k) as [have|] eqn:Ehave; [by exists have|].
  pose proof (Hmissing k v Ek Ehave) as Hv.
  pose proof (Hpaid after E k v Ek) as Hk.
  unfold Res.qty in Hk. rewrite Ehave in Hk. simpl in Hk. lia.
Qed.

End Ledger.

(* A statement about every entry of a concrete resource is checked on the
   list of its entries. *)
Ltac by_entries P :=
  match goal with
  | |- ∀ k v, ?cost !! k = Some v → _ =>
      apply (proj1 (Forall_entries P cost));
      let es := eval vm_compute in (Res.entries cost) in
      change (Res.entries cost) with es;
      repeat (apply Forall_cons; split); [.. | apply Forall_nil]; simpl
  end.

(** The initial ledger and the cost of a Greenhouse, where the ledger
    holds every kind and both sides of the equivalence hold; and the ledger
    without food and the cost [Resource()], where the missing food is asked
    with 100 and both sides fail. *)
Lemma canAfford_iff_sub_assign_witness :
  (Res.canAfford Res.new (Building.getCost Building.newGreenhouse) = true
   ↔ ∃ after,
       Res.sub_assign Res.new (Building.getCost Building.newGreenhouse) = (after, None))
  ∧ (Res.canAfford ledger_without_food Res.new = true
     ↔ ∃ after, Res.sub_assign ledger_without_food Res.new = (after, None))
  ∧ Res.canAfford ledger_without_food Res.new = false.
Proof.
  split_and!.
  - apply (canAfford_iff_sub_assign Res.new (Building.getCost Building.newGreenhouse)).
    + by_entries (λ (k : string) (v : Z), Int.in_range (Res.qty Res.new k - v));
        vm_compute; split; discriminate.
    + by_entries (λ (k : string) (v : Z), Res.new !! k = None → 0 < v);
        vm_compute; intros; reflexivity.
  - apply (canAfford_iff_sub_assign ledger_without_food Res.new).
    + by_entries (λ (k : string) (v : Z),
                  Int.in_range (Res.qty ledger_without_food k - v));
        vm_compute; split; discriminate.
    + by_entries (λ (k : string) (v : Z), ledger_without_food !! k = None → 0 < v);
        vm_compute; intros; reflexivity.
  - apply (canAfford_iff_sub_assign ledger_without_food Res.new).
    exists "food", 100. split; vm_compute; reflexivity.
Defined.

(** C5 as stated fails when the ledger lacks a kind that [cost] lists with
    an amount of 0: [canAfford] answers false at the missing key, while
    [subtract] creates the key at 0 and returns normally. *)
Lemma canAfford_absent_kind :
  ¬ (∀ this cost : Resource,
       Res.canAfford this cost = true
       ↔ ∃ after, Res.sub_assign this cost = (after, None)).
Proof.
  intros H.
  destruct (H ledger_without_food (Res.set "food" 0 Res.new)) as [_ Hback].
  assert (Res.canAfford ledger_without_food (Res.set "food" 0 Res.new) = true) as E.
  { apply Hback.
    exists (Res.sub_assign ledger_without_food (Res.set "food" 0 Res.new)).1.
    vm_compute. reflexivity. }
  vm_compute in E. discriminate.
Qed.

(** ** Producers *)

Section Producers.

Implicit Types (b : Building.t) (c : Colonist.t).

Lemma new_quantities : Res.new = quantities 100 100 50 100.
Proof. reflexivity. Qed.

Lemma produce_key_output key b :
  (Building.produce_key key b).1 =
  if Building.operational b
  then <[key := Int.mul (Res.qty (Building.production b) key) (Building.level b)]> Res.new
  else Res.new.
Proof. unfold Building.produce_key. by destruct (Building.operational b). Qed.

(** What [produce] returns, for every building. *)
Lemma produce_output b :
  (Building.produce b).1 =
  if Building.operational b
  then <[Building.product (Building.kind b) :=
           Int.mul (Res.qty (Building.production b) (Building.product (Building.kind b)))
                   (Building.level b)]> Res.new
  else Res.new.
Proof.
  unfold Building.produce. destruct (Building.kind b); apply produce_key_output.
Qed.

(** C2, on the code.  A building that is switched off returns [Resource()],
    which holds food 100, energy 100, materials 50 and oxygen 100, not the
    zero delta; a building that works returns [Resource()] with its own
    kind overwritten by rate times level, so the three other kinds come out
    as 100, 100, 50 or 100 and not as 0.  Shown on the Solar Panel of the
    initial colony, switched off and on. *)
Theorem produce_starts_from_defaults :
  (∀ b, Building.operational b = false →
        (Building.produce b).1 = quantities 100 100 50 100)
  ∧ (∀ b, Building.operational b = true →
          (Building.produce b).1
          = <[Building.product (Building.kind b) :=
                Int.mul (Res.qty (Building.production b) (Building.product (Building.kind b)))
                        (Building.level b)]> (quantities 100 100 50 100))
  ∧ (Building.produce (Building.setOperational false Building.newSolarPanel)).1
    = quantities 100 100 50 100
  ∧ (Building.produce Building.newSolarPanel).1 = quantities 100 15 50 100.
Proof.
  split_and!; [| |reflexivity..];
    intros b Hb; rewrite produce_output, Hb; reflexivity.
Qed.

(** C1, on the code.  One Production phase from the initial state leaves
    the ledger at food 519, energy 514, materials 255 and oxygen 596, and
    not at 119, 114, 55 and 96: the aggregate and each of the five outputs
    start from [Resource()], and so does the consumption. *)
Theorem first_production_phase :
  totalProduction GameEngine.new = Ok (quantities 428 418 255 502)
  ∧ GameEngine.consumption GameEngine.new = quantities 9 4 50 6
  ∧ (GameEngine.handleProductionPhase GameEngine.new).2 = None
  ∧ GameEngine.colonyResources (GameEngine.handleProductionPhase GameEngine.new).1
    = quantities 519 514 255 596.
Proof. split_and!; vm_compute; reflexivity. Qed.

End Producers.

(** ** Events *)

Section Events.

Implicit Types (e : Event.t) (evs : list Event.t) (roll : Z).
Implicit Types (resources : Resource) (colonists : list Colonist.t).

(** The scan returns the first event of the catalog whose weight reaches
    the roll. *)
Lemma triggered_Some roll evs e :
  GameEngine.triggered roll evs = Some e
  ↔ ∃ pre post,
      evs = pre ++ e :: post
      ∧ Forall (λ e', Event.probability e' < roll) pre
      ∧ roll <= Event.probability e.
Proof.
  induction evs as [|e0 evs IH]; simpl.
  - split; [done|]. intros (pre & post & E & _). by destruct pre.
  - unfold Event.getProbability. destruct (Z.leb_spec roll (Event.probability e0)) as [Hle|Hlt].
    + split.
      * intros [= <-]. by exists [], evs.
      * intros (pre & post & E & Hpre & _). destruct pre as [|e1 pre]; simpl in E.
        -- by injection E as ->.
        -- injection E as <- _. apply Forall_cons in Hpre as [Hlt _]. lia.
    + rewrite IH. split.
      * intros (pre & post & -> & Hpre & Hle). exists (e0 :: pre), post.
        split_and!; [done | by constructor | done].
      * intros (pre & post & E & Hpre & Hle). destruct pre as [|e1 pre]; simpl in E.
        -- injection E as <- _. lia.
        -- injection E as <- ->. apply Forall_cons in Hpre as [_ Hpre].
           by exists pre, post.
Qed.

Lemma triggered_None roll evs :
  GameEngine.triggered roll evs = None
  ↔ Forall (λ e', Event.probability e' < roll) evs.
Proof.
  induction evs as [|e0 evs IH]; simpl; [by split|].
  unfold Event.getProbability. rewrite Forall_cons, <- IH.
  destruct (Z.leb_spec roll (Event.probability e0)); [|by intuition lia].
  split; [done|]. intros [? _]. lia.
Qed.

Lemma triggered_catalog roll :
  GameEngine.triggered roll (GameEngine.events GameEngine.new)
  = (if roll <=? 15 then Some Event.newSolarStorm
     else if roll <=? 25 then Some Event.newTradeShip
     else None).
Proof.
  change (GameEngine.events GameEngine.new)
    with [Event.newSolarStorm; Event.newTradeShip; Event.newMeteorShower].
  simpl. unfold Event.getProbability. simpl.
  destruct (Z.leb_spec roll 15), (Z.leb_spec roll 25), (Z.leb_spec roll 10);
    (reflexivity || lia).
Qed.

Lemma repair_loop_energy colonists resources :
  Res.qty (Event.repair_loop colonists resources) "energy"
  = if has_engineer colonists
    then Int.add (Res.qty resources "energy") 10
    else Res.qty resources "energy".
Proof.
  induction colonists as [|c cs IH]; simpl; [done|].
  destruct (String.eqb (Colonist.specialization c) "Engineer"); simpl; [|done].
  unfold Res.incr. by rewrite qty_insert.
Qed.

(** C7. Executing Solar Storm changes the Energy of the ledger by -20 when
    the roster has an Engineer, however many, and by -30 when it has none
    (in [int] arithmetic, and exactly when the ledger's Energy less 30 is
    still an [int]).  The Event phase raises no exception, also when the
    Energy goes below zero, as it does from 10. *)
Theorem solar_storm_energy resources colonists :
  Res.qty (Event.execute Event.newSolarStorm resources colonists) "energy"
    = Int.add (Res.qty resources "energy") (if has_engineer colonists then -20 else -30)
  ∧ (Int.in_range (Res.qty resources "energy") →
     Int.in_range (Res.qty resources "energy" - 30) →
     Res.qty (Event.execute Event.newSolarStorm resources colonists) "energy"
       = Res.qty resources "energy" + (if has_engineer colonists then -20 else -30))
  ∧ (∀ inp s, GameState.currentPhase (GameEngine.gameState s) = EVENT →
              (GameEngine.handlePhase inp s).2 = None)
  ∧ Res.qty (Event.execute Event.newSolarStorm (quantities 100 10 50 100) []) "energy"
    = -20.
Proof.
  assert (Res.qty (Event.execute Event.newSolarStorm resources colonists) "energy"
          = Int.add (Res.qty resources "energy")
                    (if has_engineer colonists then -20 else -30)) as Henergy.
  { unfold Event.execute. simpl. rewrite repair_loop_energy.
    unfold Event.execute_base, Res.add_assign. rewrite add_qty.
    change (Event.resourceEffect Event.newSolarStorm !! "energy") with (Some (-30)).
    destruct (has_engineer colonists); [|done]. by rewrite add_add. }
  split_and!; [done | | | reflexivity].
  - intros He He30. rewrite Henergy. apply add_exact.
    unfold Int.in_range, Int.min_int, Int.max_int in *.
    destruct (has_engineer colonists); lia.
  - intros inp s Hphase. unfold GameEngine.handlePhase, GameState.getCurrentPhase.
    by rewrite Hphase.
Qed.

(** C9. The delta an event stores is [Resource()] with the kinds its
    constructor sets overwritten, so the kinds it does not set keep food
    100, energy 100, materials 50, oxygen 100.  Executing Trade Ship adds
    100 to Energy and 100 to Oxygen besides 20 to Materials and 15 to
    Food. *)
Theorem event_effects_keep_defaults resources colonists :
  Event.resourceEffect Event.newSolarStorm = quantities 100 (-30) 50 100
  ∧ Event.resourceEffect Event.newTradeShip = quantities 15 100 20 100
  ∧ Event.resourceEffect Event.newMeteorShower = quantities 100 100 30 (-10)
  ∧ (∀ k v, Event.resourceEffect Event.newTradeShip !! k = Some v →
       Res.qty (Event.execute Event.newTradeShip resources colonists) k
       = Int.add (Res.qty resources k) v)
  ∧ (∀ k v, Event.resourceEffect Event.newTradeShip !! k = Some v →
       Int.in_range (Res.qty resources k + v) →
       Res.qty (Event.execute Event.newTradeShip resources colonists) k
       = Res.qty resources k + v)
  ∧ Res.qty (Event.execute Event.newTradeShip resources colonists) "energy"
    = Int.add (Res.qty resources "energy") 100
  ∧ Res.qty (Event.execute Event.newTradeShip resources colonists) "oxygen"
    = Int.add (Res.qty resources "oxygen") 100
  ∧ Res.qty (Event.execute Event.newTradeShip resources colonists) "materials"
    = Int.add (Res.qty resources "materials") 20
  ∧ Res.qty (Event.execute Event.newTradeShip resources colonists) "food"
    = Int.add (Res.qty resources "food") 15
  ∧ Event.execute Event.newTradeShip (quantities 100 100 50 100) colonists
    = quantities 115 200 70 200.
Proof.
  assert (∀ k v, Event.resourceEffect Event.newTradeShip !! k = Some v →
       Res.qty (Event.execute Event.newTradeShip resources colonists) k
       = Int.add (Res.qty resources k) v) as Hadd.
  { intros k v E. unfold Event.execute. simpl.
    unfold Event.execute_base, Res.add_assign. by rewrite add_qty, E. }
  split_and!; try reflexivity; try done; try by apply Hadd.
  intros k v E Hrange. rewrite (Hadd k v E). by apply add_exact.
Qed.

End Events.

(** ** The Production phase *)

Section Production.

Implicit Types (s : GameEngine.t) (total : Resource).

Lemma building_loop_length (bs : list Building.t) total :
  length (GameEngine.building_loop bs total).1 = length bs.
Proof.
  revert total. induction bs as [|b bs IH]; intros total; simpl; [done|].
  destruct (Building.isOperational b).
  - destruct (Building.produce b) as [out b'].
    specialize (IH (Res.add_assign total out)).
    destruct (GameEngine.building_loop bs _) as [bs' total']. simpl in *. by rewrite IH.
  - specialize (IH total).
    destruct (GameEngine.building_loop bs _) as [bs' total']. simpl in *. by rewrite IH.
Qed.

Lemma work_identity (c c' : Colonist.t) out :
  Colonist.work c = Ok (out, c') → identity c' = identity c.
Proof.
  unfold Colonist.work. destruct (Colonist.health c <? 50); [done|].
  by intros [= _ <-].
Qed.

(** The colonist loop touches neither the names nor the specializations. *)
Lemma colonist_loop_identity (cs : list Colonist.t) total :
  identity <$> (GameEngine.colonist_loop cs total).1 = identity <$> cs.
Proof.
  revert total. induction cs as [|c cs IH]; intros total; simpl; [done|].
  destruct (negb (Colonist.assigned c) && (50 <? Colonist.health c)).
  - destruct (Colonist.work c) as [[out c']|e] eqn:E; [|done].
    specialize (IH (Res.add_assign total out)).
    destruct (GameEngine.colonist_loop cs _) as [cs' r]. simpl in *.
    f_equal; [by apply (work_identity c c' out) | exact IH].
  - specialize (IH total).
    destruct (GameEngine.colonist_loop cs _) as [cs' r]. simpl in *.
    f_equal. exact IH.
Qed.

Lemma colonist_loop_length (cs : list Colonist.t) total :
  length (GameEngine.colonist_loop cs total).1 = length cs.
Proof.
  rewrite <- (length_fmap identity), colonist_loop_identity. apply length_fmap.
Qed.

Lemma consumption_quantities s :
  GameEngine.consumption s
  = quantities (Int.wrap (Z.of_nat (length (GameEngine.colonists s)) * 3))
               (Int.wrap (Z.of_nat (length (GameEngine.buildings s)) * 2))
               50
               (Int.wrap (Z.of_nat (length (GameEngine.colonists s)) * 2)).
Proof.
  unfold GameEngine.consumption, quantities, Res.set, Res.new.
  apply map_eq. intros k. rewrite !lookup_insert.
  repeat case_decide; subst; done.
Qed.

(** The Production phase in terms of the ledger alone. *)
Lemma handleProductionPhase_ledger s s' :
  GameEngine.handleProductionPhase s = (s', None) →
  ∃ total,
    totalProduction s = Ok total
    ∧ Res.sub (Res.add (GameEngine.colonyResources s) total) (GameEngine.consumption s)
      = Ok (GameEngine.colonyResources s').
Proof.
  unfold GameEngine.handleProductionPhase, totalProduction.
  pose proof (building_loop_length (GameEngine.buildings s) Res.new) as Hbs.
  destruct (GameEngine.building_loop (GameEngine.buildings s) Res.new) as [bs total0].
  simpl in *.
  pose proof (colonist_loop_length (GameEngine.colonists s) total0) as Hcs.
  destruct (GameEngine.colonist_loop (GameEngine.colonists s) total0) as [cs [total|e]];
    simpl in *; [|done].
  unfold Res.sub_assign, Res.add_assign, GameEngine.consumption. simpl.
  rewrite Hbs, Hcs.
  destruct (Res.sub _ _) as [after|e] eqn:E; [|done].
  intros [= <-]. exists total. split; [done|]. simpl. exact E.
Qed.

(** C8. In every Production phase the consumption that is subtracted
    holds, besides food 3 per colonist, oxygen 2 per colonist and energy 2
    per building (as [int]s), materials 50, the value [Resource()] starts
    with.  When the phase returns normally, the ledger it leaves has, for
    every kind, the quantity after production less the consumption, and so
    50 materials less, whatever the state of the colony. *)
Theorem consumption_debits_materials s :
  GameEngine.consumption s
  = quantities (Int.wrap (Z.of_nat (length (GameEngine.colonists s)) * 3))
               (Int.wrap (Z.of_nat (length (GameEngine.buildings s)) * 2))
               50
               (Int.wrap (Z.of_nat (length (GameEngine.colonists s)) * 2))
  ∧ (Z.of_nat (length (GameEngine.colonists s)) * 3 <= Int.max_int →
     Z.of_nat (length (GameEngine.buildings s)) * 2 <= Int.max_int →
     GameEngine.consumption s
     = quantities (3 * Z.of_nat (length (GameEngine.colonists s)))
                  (2 * Z.of_nat (length (GameEngine.buildings s)))
                  50
                  (2 * Z.of_nat (length (GameEngine.colonists s))))
  ∧ Res.new !! "materials" = Some 50
  ∧ ∀ s', GameEngine.handleProductionPhase s = (s', None) →
    ∃ total,
      totalProduction s = Ok total
      ∧ (∀ k v, GameEngine.consumption s !! k = Some v →
           Res.qty (GameEngine.colonyResources s') k
           = Int.sub (Res.qty (Res.add (GameEngine.colonyResources s) total) k) v)
      ∧ Res.qty (GameEngine.colonyResources s') "materials"
        = Int.sub (Res.qty (Res.add (GameEngine.colonyResources s) total) "materials") 50
      ∧ (Int.in_range
           (Res.qty (Res.add (GameEngine.colonyResources s) total) "materials" - 50) →
         Res.qty (GameEngine.colonyResources s') "materials"
         = Res.qty (Res.add (GameEngine.colonyResources s) total) "materials" - 50)
      ∧ 0 <= Res.qty (GameEngine.colonyResources s') "materials".
Proof.
  split_and!; [apply consumption_quantities | | reflexivity |].
  - intros Hc Hb. rewrite consumption_quantities.
    unfold Int.max_int in *.
    rewrite !wrap_id by (unfold Int.in_range, Int.min_int, Int.max_int; lia).
    f_equal; lia.
  - intros s' (total & Htotal & Hsub)%handleProductionPhase_ledger.
    assert (∀ k v, GameEngine.consumption s !! k = Some v →
             Res.qty (GameEngine.colonyResources s') k
             = Int.sub (Res.qty (Res.add (GameEngine.colonyResources s) total) k) v)
      as Hdebit.
    { intros k v E. unfold Res.qty at 1.
      by rewrite (sub_ok_lookup _ _ _ k Hsub), E. }
    assert (GameEngine.consumption s !! "materials" = Some 50) as Hmat.
    { by rewrite consumption_quantities. }
    exists total. split_and!; [done | done | by apply Hdebit | |].
    { intros Hrange. rewrite (Hdebit _ _ Hmat). by apply sub_exact. }
    rewrite (Hdebit _ _ Hmat).
    unfold Res.sub in Hsub. apply sub_loop_ok in Hsub as (Hall & _); [|apply NoDup_entries].
    apply (proj1 (tentative_entries _ _) Hall _ _ Hmat).
Qed.

(** The first Production phase returns normally and debits the 50
    materials: 50 + 255 - 50 = 255. *)
Lemma consumption_debits_materials_witness :
  GameEngine.handleProductionPhase GameEngine.new
    = ((GameEngine.handleProductionPhase GameEngine.new).1, None)
  ∧ ∃ total,
      totalProduction GameEngine.new = Ok total
      ∧ Res.qty (GameEngine.colonyResources
                   (GameEngine.handleProductionPhase GameEngine.new).1) "materials"
        = Int.sub (Res.qty (Res.add (GameEngine.colonyResources GameEngine.new) total)
                           "materials") 50.
Proof.
  split; [vm_compute; reflexivity|].
  destruct (consumption_debits_materials GameEngine.new) as (_ & _ & _ & Hphase).
  destruct (Hphase (GameEngine.handleProductionPhase GameEngine.new).1)
    as (total & Htotal & _ & Hmaterials & _ & _); [vm_compute; reflexivity|].
  exists total. split; assumption.
Defined.

End Production.

(** ** The game loop *)

Section GameLoop.

Implicit Types (s : GameEngine.t) (inp : Input) (v : Verdict).

(** *** What [checkGameConditions] decides *)

Lemma checkGameConditions_verdict s :
  (GameEngine.checkGameConditions s).2 =
  if (10 <=? GameState.turn (GameEngine.gameState s))
     && (3 <=? Z.of_nat (length (GameEngine.colonists s)))
  then Win
  else if (Res.qty (GameEngine.colonyResources s) "food" <=? 0)
          || (Res.qty (GameEngine.colonyResources s) "oxygen" <=? 0)
  then LoseResources
  else match GameEngine.colonists s with
       | [] => LoseRoster
       | _ :: _ => Continue
       end.
Proof.
  unfold GameEngine.checkGameConditions, GameState.getTurn.
  destruct (_ && _); [done|].
  destruct (Res.qty (GameEngine.colonyResources s) "food" <=? 0); [done|]. simpl.
  unfold Res.touch at 1. rewrite qty_insert_ne by done.
  destruct (Res.qty (GameEngine.colonyResources s) "oxygen" <=? 0); [done|].
  by destruct (GameEngine.colonists s).
Qed.

Lemma checkGameConditions_gameState s :
  GameEngine.gameState (GameEngine.checkGameConditions s).1 =
  match (GameEngine.checkGameConditions s).2 with
  | Continue => GameEngine.gameState s
  | _ => GameState.endGame (GameEngine.gameState s)
  end.
Proof.
  unfold GameEngine.checkGameConditions.
  repeat (case_match; simpl; try done).
Qed.

Lemma checkGameConditions_colonists s :
  GameEngine.colonists (GameEngine.checkGameConditions s).1 = GameEngine.colonists s.
Proof.
  unfold GameEngine.checkGameConditions.
  repeat (case_match; simpl; try done).
Qed.

(** *** One pass of the loop *)

Lemma loopBody_calls inp s :
  (GameEngine.loopBody inp s).2 =
  [CallHandler (GameState.currentPhase (GameEngine.gameState s));
   CallNextPhase;
   CallCheckGameConditions
     (GameEngine.checkGameConditions
        (GameEngine.with_gameState GameState.nextPhase (GameEngine.handlePhase inp s).1)).2].
Proof.
  unfold GameEngine.loopBody, GameEngine.handleError.
  destruct (GameEngine.handlePhase inp s) as [s' [e|]]; simpl;
    by destruct (GameEngine.checkGameConditions _).
Qed.

Lemma loopBody_state inp s :
  (GameEngine.loopBody inp s).1 =
  (GameEngine.checkGameConditions
     (GameEngine.with_gameState GameState.nextPhase (GameEngine.handlePhase inp s).1)).1.
Proof.
  unfold GameEngine.loopBody, GameEngine.handleError.
  destruct (GameEngine.handlePhase inp s) as [s' [e|]]; simpl;
    by destruct (GameEngine.checkGameConditions _).
Qed.

(** *** The handlers leave the game state and the roster entries alone *)

Lemma buildStructure_colonists choice s :
  GameEngine.colonists (GameEngine.buildStructure choice s).1 = GameEngine.colonists s.
Proof.
  unfold GameEngine.buildStructure.
  destruct (GameEngine.newBuilding choice) as [b|]; [|done].
  simpl. destruct (Res.canAfford _ _); [|done].
  by destruct (Res.sub_assign _ _) as [res [e|]].
Qed.

Lemma buildStructure_gameState choice s :
  GameEngine.gameState (GameEngine.buildStructure choice s).1 = GameEngine.gameState s.
Proof.
  unfold GameEngine.buildStructure.
  destruct (GameEngine.newBuilding choice) as [b|]; [|done].
  simpl. destruct (Res.canAfford _ _); [|done].
  by destruct (Res.sub_assign _ _) as [res [e|]].
Qed.

Lemma assignColonists_identity choice s :
  identity <$> GameEngine.colonists (GameEngine.assignColonists choice s)
  = identity <$> GameEngine.colonists s.
Proof.
  unfold GameEngine.assignColonists. destruct (_ && _); [|done]. simpl.
  apply list_eq. intros i. rewrite !list_lookup_fmap.
  destruct (decide (i = N.to_nat (choice - 1))) as [->|Hne].
  - rewrite list_lookup_alter_eq. by destruct (GameEngine.colonists s !! _).
  - by rewrite list_lookup_alter_ne.
Qed.

Lemma restColonists_identity s :
  identity <$> GameEngine.colonists (GameEngine.restColonists s)
  = identity <$> GameEngine.colonists s.
Proof.
  unfold GameEngine.restColonists. simpl.
  induction (GameEngine.colonists s) as [|c cs IH]; simpl; [done|]. by f_equal.
Qed.

Lemma handleProductionPhase_identity s :
  identity <$> GameEngine.colonists (GameEngine.handleProductionPhase s).1
  = identity <$> GameEngine.colonists s.
Proof.
  unfold GameEngine.handleProductionPhase.
  destruct (GameEngine.building_loop _ _) as [bs total0]. simpl.
  pose proof (colonist_loop_identity (GameEngine.colonists s) total0) as Hid.
  destruct (GameEngine.colonist_loop _ _) as [cs [total|e]]; simpl in *; [|done].
  by destruct (Res.sub_assign _ _).
Qed.

Lemma handleProductionPhase_gameState s :
  GameEngine.gameState (GameEngine.handleProductionPhase s).1 = GameEngine.gameState s.
Proof.
  unfold GameEngine.handleProductionPhase.
  destruct (GameEngine.building_loop _ _) as [bs total0]. simpl.
  destruct (GameEngine.colonist_loop _ _) as [cs [total|e]]; simpl in *; [|done].
  by destruct (Res.sub_assign _ _).
Qed.

Lemma handleEventPhase_colonists roll s :
  GameEngine.colonists (GameEngine.handleEventPhase roll s) = GameEngine.colonists s.
Proof. unfold GameEngine.handleEventPhase. by destruct (GameEngine.triggered _ _). Qed.

Lemma handleEventPhase_gameState roll s :
  GameEngine.gameState (GameEngine.handleEventPhase roll s) = GameEngine.gameState s.
Proof. unfold GameEngine.handleEventPhase. by destruct (GameEngine.triggered _ _). Qed.

Lemma handleManagementPhase_identity inp s :
  identity <$> GameEngine.colonists (GameEngine.handleManagementPhase inp s).1
  = identity <$> GameEngine.colonists s.
Proof.
  unfold GameEngine.handleManagementPhase, GameEngine.saveGame.
  repeat case_match; simpl; try done.
  - apply (restColonists_identity s).
  - apply assignColonists_identity.
  - by rewrite buildStructure_colonists.
Qed.

Lemma handleManagementPhase_gameState inp s :
  GameEngine.gameState (GameEngine.handleManagementPhase inp s).1 = GameEngine.gameState s.
Proof.
  unfold GameEngine.handleManagementPhase, GameEngine.saveGame.
  repeat case_match; simpl; try done.
  - unfold GameEngine.assignColonists. by destruct (_ && _).
  - apply buildStructure_gameState.
Qed.

Lemma handlePhase_identity inp s :
  identity <$> GameEngine.colonists (GameEngine.handlePhase inp s).1
  = identity <$> GameEngine.colonists s.
Proof.
  unfold GameEngine.handlePhase.
  destruct (GameState.getCurrentPhase _); simpl;
    auto using handleProductionPhase_identity, handleManagementPhase_identity.
  by rewrite handleEventPhase_colonists.
Qed.

Lemma handlePhase_gameState inp s :
  GameEngine.gameState (GameEngine.handlePhase inp s).1 = GameEngine.gameState s.
Proof.
  unfold GameEngine.handlePhase.
  destruct (GameState.getCurrentPhase _); simpl;
    auto using handleProductionPhase_gameState, handleManagementPhase_gameState,
      handleEventPhase_gameState.
Qed.

Lemma loopBody_identity inp s :
  identity <$> GameEngine.colonists (GameEngine.loopBody inp s).1
  = identity <$> GameEngine.colonists s.
Proof.
  rewrite loopBody_state, checkGameConditions_colonists. simpl.
  apply handlePhase_identity.
Qed.

Lemma loopBody_colonistCount inp s :
  GameState.colonistCount (GameEngine.gameState (GameEngine.loopBody inp s).1)
  = GameState.colonistCount (GameEngine.gameState s).
Proof.
  rewrite loopBody_state, checkGameConditions_gameState. simpl.
  rewrite handlePhase_gameState.
  destruct (GameEngine.checkGameConditions _).2; simpl;
    unfold GameState.nextPhase; by destruct (GameState.currentPhase _).
Qed.

(** *** The catalog is never changed *)

Lemma handlePhase_events inp s :
  GameEngine.events (GameEngine.handlePhase inp s).1 = GameEngine.events s.
Proof.
  unfold GameEngine.handlePhase. destruct (GameState.getCurrentPhase _); simpl; try done.
  - unfold GameEngine.handleProductionPhase.
    destruct (GameEngine.building_loop _ _) as [bs total0]. simpl.
    destruct (GameEngine.colonist_loop _ _) as [cs [total|e]]; simpl; [|done].
    by destruct (Res.sub_assign _ _).
  - unfold GameEngine.handleEventPhase. by destruct (GameEngine.triggered _ _).
  - unfold GameEngine.handleManagementPhase, GameEngine.saveGame.
    repeat case_match; simpl; try done.
    + unfold GameEngine.assignColonists. by destruct (_ && _).
    + unfold GameEngine.buildStructure.
      destruct (GameEngine.newBuilding _) as [b|]; [|done].
      simpl. destruct (Res.canAfford _ _); [|done].
      by destruct (Res.sub_assign _ _) as [res [e|]].
Qed.

Lemma loopBody_events inp s :
  GameEngine.events (GameEngine.loopBody inp s).1 = GameEngine.events s.
Proof.
  rewrite loopBody_state. rewrite <- (handlePhase_events inp s).
  unfold GameEngine.checkGameConditions.
  repeat (case_match; simpl; try done).
Qed.

Lemma reachable_events s :
  GameEngine.reachable s → GameEngine.events s = GameEngine.events GameEngine.new.
Proof. induction 1 as [|inp s Hs IH Hrun]; [done|]. by rewrite loopBody_events. Qed.

(** C6. The catalog is Solar Storm (15), Trade Ship (25), Meteor Shower
    (10), in this order.  For every roll the Event phase executes the first
    event of the catalog whose weight is at least the roll, and none when
    no weight is, the engine then being left as it is.  On the catalog of
    the setup, which every state the game loop reaches still has, that is
    Solar Storm up to 15 (so at 15, where Trade Ship qualifies too), Trade
    Ship from 16 to 25, and no event above 25. *)
Theorem event_phase_first_match (roll : Z) s :
  map Event.kind (GameEngine.events GameEngine.new)
    = [Event.SolarStorm; Event.TradeShip; Event.MeteorShower]
  ∧ map Event.probability (GameEngine.events GameEngine.new) = [15; 25; 10]
  ∧ (∀ e, GameEngine.triggered roll (GameEngine.events s) = Some e
          ↔ ∃ pre post,
              GameEngine.events s = pre ++ e :: post
              ∧ Forall (λ e', Event.probability e' < roll) pre
              ∧ roll <= Event.probability e)
  ∧ (GameEngine.triggered roll (GameEngine.events s) = None
     ↔ Forall (λ e', Event.probability e' < roll) (GameEngine.events s))
  ∧ GameEngine.triggered roll (GameEngine.events GameEngine.new)
    = (if roll <=? 15 then Some Event.newSolarStorm
       else if roll <=? 25 then Some Event.newTradeShip
       else None)
  ∧ (GameEngine.reachable s →
     GameEngine.triggered roll (GameEngine.events s)
     = (if roll <=? 15 then Some Event.newSolarStorm
        else if roll <=? 25 then Some Event.newTradeShip
        else None))
  ∧ GameEngine.triggered 15 (GameEngine.events GameEngine.new) = Some Event.newSolarStorm
  ∧ GameEngine.handleEventPhase roll s
    = match GameEngine.triggered roll (GameEngine.events s) with
      | Some e =>
          GameEngine.with_colonyResources
            (λ r, Event.execute e r (GameEngine.colonists s)) s
      | None => s
      end.
Proof.
  split_and!; try reflexivity.
  - intros e. apply triggered_Some.
  - apply triggered_None.
  - apply triggered_catalog.
  - intros ->%reachable_events. apply triggered_catalog.
Qed.

(** *** When the termination conditions are evaluated *)



(** *** The roster *)

Lemma reachable_identity s :
  GameEngine.reachable s →
  identity <$> GameEngine.colonists s = founders
  ∧ GameState.colonistCount (GameEngine.gameState s) = 3.
Proof.
  induction 1 as [|inp s Hs [IHid IHcount] Hrun]; [by split|].
  by rewrite loopBody_identity, loopBody_colonistCount.
Qed.

(** C10. In every state the game loop reaches the roster is the three
    colonists of the setup, by name and specialization; a pass of the loop
    keeps the entries; the size of the roster and the colonist count of the
    game state are 3; the conjunct of the win condition on the size holds;
    and no pass takes the "roster is empty" branch. *)
Theorem roster_is_invariant s :
  GameEngine.reachable s →
  identity <$> GameEngine.colonists s = founders
  ∧ length (GameEngine.colonists s) = 3%nat
  ∧ GameState.colonistCount (GameEngine.gameState s) = 3
  ∧ (3 <=? Z.of_nat (length (GameEngine.colonists s))) = true
  ∧ (GameEngine.checkGameConditions s).2 ≠ LoseRoster
  ∧ ∀ inp,
      identity <$> GameEngine.colonists (GameEngine.loopBody inp s).1
        = identity <$> GameEngine.colonists s
      ∧ CallCheckGameConditions LoseRoster ∉ (GameEngine.loopBody inp s).2.
Proof.
  intros [Hid Hcount]%reachable_identity.
  assert (length (GameEngine.colonists s) = 3%nat) as Hlen.
  { by rewrite <- (length_fmap identity), Hid. }
  assert (∀ s', identity <$> GameEngine.colonists s' = founders →
                (GameEngine.checkGameConditions s').2 ≠ LoseRoster) as Hcheck.
  { intros s' Hs'. rewrite checkGameConditions_verdict.
    destruct (GameEngine.colonists s'); [done|]. by repeat case_match. }
  split_and!; [done | done | done | by rewrite Hlen | by apply Hcheck |].
  intros inp. split; [apply loopBody_identity|].
  rewrite loopBody_calls, !elem_of_cons, elem_of_nil.
  intros [? | [? | [[= Hv] | []]]]; [done | done |].
  symmetry in Hv. revert Hv. apply Hcheck. unfold beforeCheck. simpl.
  by rewrite handlePhase_identity.
Qed.

(** The state after the first pass of the loop is reached, and its roster
    has three entries. *)
Lemma roster_is_invariant_witness :
  GameEngine.reachable (GameEngine.loopBody idle GameEngine.new).1
  ∧ length (GameEngine.colonists (GameEngine.loopBody idle GameEngine.new).1) = 3%nat.
Proof.
  assert (GameEngine.reachable (GameEngine.loopBody idle GameEngine.new).1) as Hreach.
  { apply GameEngine.reachable_pass; [apply GameEngine.reachable_new | reflexivity]. }
  split; [exact Hreach|].
  exact (proj1 (proj2 (roster_is_invariant _ Hreach))).
Defined.

(** The run without events and without management actions: 28 passes, the
    last one after the Management phase of turn 9, and the verdict Win. *)
Example idle_run_wins :
  GameEngine.gameState (GameEngine.runGameLoop (replicate 40 idle) GameEngine.new).1
    = GameState.mk END 10 3 false
  ∧ length (GameEngine.runGameLoop (replicate 40 idle) GameEngine.new).2 = (3 * 28)%nat
  ∧ last (GameEngine.runGameLoop (replicate 40 idle) GameEngine.new).2
    = Some (CallCheckGameConditions Win).
Proof. split_and!; vm_compute; reflexivity. Qed.

End GameLoop.

(** ** More on the ledger *)

Section LedgerAlgebra.

Implicit Types (this other after : Resource) (k : string) (v : Z).

(** X1. [operator+] cannot fail and works kind by kind: a kind of [other]
    is added, in [int] arithmetic, to what [this] holds of it (0 when
    absent, which creates the key), a kind [other] does not list is kept as
    it is, and the keys of the sum are the keys of both operands. *)
Theorem add_is_keywise this other :
  (∀ k, Res.add this other !! k =
        match other !! k with
        | Some v => Some (Int.add (Res.qty this k) v)
        | None => this !! k
        end)
  ∧ dom (Res.add this other) = dom this ∪ dom other
  ∧ (∀ k v, other !! k = Some v → Int.in_range (Res.qty this k + v) →
            Res.qty (Res.add this other) k = Res.qty this k + v).
Proof.
  split_and!.
  - intros k. apply add_lookup.
  - apply set_eq. intros k. rewrite elem_of_union, !elem_of_dom, add_lookup.
    destruct (other !! k) as [v|]; [|by intuition (try apply is_Some_None)].
    split; [intros _; right; by eexists | by eexists].
  - intros k v E Hrange. rewrite add_qty, E. by apply add_exact.
Qed.

(** X2. A subtract that succeeds is undone by adding the same delta: when
    the quantities of the kinds of [other] are [int]s, every quantity of
    [this - other + other] is the quantity of [this]. *)
Theorem sub_then_add_restores this other after :
  Res.sub this other = Ok after →
  (∀ k v, other !! k = Some v → Int.in_range (Res.qty this k)) →
  ∀ k, Res.qty (Res.add after other) k = Res.qty this k.
Proof.
  intros Hsub Hrange k. rewrite add_qty.
  unfold Res.qty at 1 2. rewrite (sub_ok_lookup _ _ _ k Hsub).
  destruct (other !! k) as [v|] eqn:E; [|done]. simpl.
  unfold tentative, Int.add, Int.sub. rewrite wrap_add_l.
  replace (Res.qty this k - v + v) with (Res.qty this k) by lia.
  apply wrap_id, (Hrange k v E).
Qed.

(** The initial ledger less the cost of a Greenhouse, plus that cost. *)
Lemma sub_then_add_restores_witness :
  ∃ after,
    Res.sub Res.new (Building.getCost Building.newGreenhouse) = Ok after
    ∧ ∀ k, Res.qty (Res.add after (Building.getCost Building.newGreenhouse)) k
           = Res.qty Res.new k.
Proof.
  exists (quantities 0 90 20 0). split; [vm_compute; reflexivity|].
  apply (sub_then_add_restores Res.new (Building.getCost Building.newGreenhouse)).
  - vm_compute. reflexivity.
  - by_entries (λ (k : string) (v : Z), Int.in_range (Res.qty Res.new k));
      vm_compute; split; discriminate.
Defined.

End LedgerAlgebra.

(** ** More on the producers *)

Section ProducerFacts.

Implicit Types (b : Building.t) (c : Colonist.t) (cs : list Colonist.t).
Implicit Types (total : Resource).

Lemma work_eligible c :
  eligible c = true →
  ∃ out, Colonist.work c = Ok (out, worked c).
Proof.
  unfold eligible, Colonist.work. intros [_ Hh]%andb_prop.
  apply Z.ltb_lt in Hh. destruct (Z.ltb_spec (Colonist.health c) 50); [lia|].
  by eexists.
Qed.

Lemma colonist_loop_steps cs total :
  ∃ total',
    GameEngine.colonist_loop cs total
    = (map (λ c, if eligible c then worked c else c) cs, Ok total').
Proof.
  revert total. induction cs as [|c cs IH]; intros total; simpl; [by eexists|].
  fold (eligible c). destruct (eligible c) eqn:E.
  - destruct (work_eligible c E) as [out ->].
    destruct (IH (Res.add_assign total out)) as [total' ->]. by eexists.
  - destruct (IH total) as [total' ->]. by eexists.
Qed.

Lemma colonist_loop_idle cs total :
  Forall (λ c, eligible c = false) cs →
  GameEngine.colonist_loop cs total = (cs, Ok total).
Proof.
  induction 1 as [|c cs Hc _ IH]; simpl; [done|].
  fold (eligible c). by rewrite Hc, IH.
Qed.

(** X3. The colonist loop of the Production phase never throws: [work] is
    only called on colonists that are not assigned and whose health is
    above 50, where its own test (health below 50) cannot fire.  Such a
    colonist ends the phase with one more unit of experience; an assigned
    colonist, or one whose health is 50 or less, is left as it is, and a
    roster of such colonists adds nothing to the aggregate. *)
Theorem colonist_loop_never_throws cs total :
  (∃ total',
     GameEngine.colonist_loop cs total
     = (map (λ c, if eligible c then worked c else c) cs, Ok total'))
  ∧ (Forall (λ c, Colonist.assigned c = true ∨ Colonist.health c <= 50) cs →
     GameEngine.colonist_loop cs total = (cs, Ok total)).
Proof.
  split; [apply colonist_loop_steps|].
  intros Hall. apply colonist_loop_idle.
  eapply Forall_impl; [exact Hall|]. intros c [Ha | Hh]; unfold eligible.
  - by rewrite Ha.
  - destruct (Z.ltb_spec 50 (Colonist.health c)); [lia|]. apply andb_false_r.
Qed.

(** X4. [rest] and [restColonists]: afterwards no colonist is assigned, the
    roster has the same entries with the same experience, and a health
    between 0 and 100 has grown by 10, capped at 100. *)
Theorem restColonists_effect (s : GameEngine.t) :
  length (GameEngine.colonists (GameEngine.restColonists s))
    = length (GameEngine.colonists s)
  ∧ (∀ c', c' ∈ GameEngine.colonists (GameEngine.restColonists s) →
           Colonist.assigned c' = false)
  ∧ ∀ i c, GameEngine.colonists s !! i = Some c →
      ∃ c', GameEngine.colonists (GameEngine.restColonists s) !! i = Some c'
        ∧ identity c' = identity c
        ∧ Colonist.experience c' = Colonist.experience c
        ∧ (0 <= Colonist.health c <= 100 →
           Colonist.health c' = Z.min 100 (Colonist.health c + 10)).
Proof.
  unfold GameEngine.restColonists. simpl. split_and!.
  - apply length_map.
  - intros c' Hc'. change (map Colonist.rest) with (fmap (M:=list) Colonist.rest) in Hc'.
    apply list_elem_of_fmap in Hc' as (c & -> & _). reflexivity.
  - intros i c Hi. exists (Colonist.rest c). split_and!; try reflexivity.
    + change (map Colonist.rest) with (fmap (M:=list) Colonist.rest).
      by rewrite list_lookup_fmap, Hi.
    + intros Hh. simpl. unfold Int.min.
      rewrite add_exact by (unfold Int.in_range, Int.min_int, Int.max_int; lia).
      destruct (Z.ltb_spec (Colonist.health c + 10) 100); lia.
Qed.

(** X5. [takeDamage] never leaves a negative health; it throws
    "<name> has died" exactly when the health it has stored is 0; and when
    the difference is an [int] the stored health is the difference, or 0
    when that is negative. *)
Theorem takeDamage_effect (damage : Z) c :
  0 <= Colonist.health (Colonist.takeDamage damage c).1
  ∧ ((Colonist.takeDamage damage c).2
       = Some (ColonistException (Colonist.name c +:+ " has died"))
     ↔ Colonist.health (Colonist.takeDamage damage c).1 = 0)
  ∧ ((Colonist.takeDamage damage c).2 = None
     ↔ 0 < Colonist.health (Colonist.takeDamage damage c).1)
  ∧ (Int.in_range (Colonist.health c - damage) →
     Colonist.health (Colonist.takeDamage damage c).1
     = Z.max 0 (Colonist.health c - damage))
  ∧ identity (Colonist.takeDamage damage c).1 = identity c.
Proof.
  unfold Colonist.takeDamage.
  set (h := Int.max 0 (Int.sub (Colonist.health c) damage)).
  assert (0 <= h) as Hh.
  { unfold h, Int.max. destruct (Z.ltb_spec 0 (Int.sub (Colonist.health c) damage)); lia. }
  assert (Int.in_range (Colonist.health c - damage) →
          h = Z.max 0 (Colonist.health c - damage)) as Hexact.
  { intros Hr. unfold h, Int.max. rewrite sub_exact by done.
    destruct (Z.ltb_spec 0 (Colonist.health c - damage)); lia. }
  destruct (Z.eqb_spec h 0) as [E|E]; simpl; split_and!; try done; try lia.
  - split; [intros [=] | lia].
  - split; [lia | done].
Qed.

(** X6. [upgrade] raises the level by one and the materials rate by 5,
    whatever the kind of the building.  So the next [produce] of a working
    building yields its rate times the new level, where only the rate of a
    Material Factory has grown. *)
Theorem produce_after_upgrade b :
  Building.level (Building.upgrade b) = Int.add (Building.level b) 1
  ∧ Res.qty (Building.production (Building.upgrade b)) "materials"
    = Int.add (Res.qty (Building.production b) "materials") 5
  ∧ (∀ k, k ≠ "materials" →
          Building.production (Building.upgrade b) !! k = Building.production b !! k)
  ∧ rate (Building.upgrade b)
    = match Building.kind b with
      | Building.MaterialFactory => Int.add (rate b) 5
      | _ => rate b
      end
  ∧ (Building.operational b = true →
     Res.qty (Building.produce (Building.upgrade b)).1 (Building.product (Building.kind b))
     = Int.mul (match Building.kind b with
                | Building.MaterialFactory => Int.add (rate b) 5
                | _ => rate b
                end)
               (Int.add (Building.level b) 1)).
Proof.
  assert (rate (Building.upgrade b)
          = match Building.kind b with
            | Building.MaterialFactory => Int.add (rate b) 5
            | _ => rate b
            end) as Hrate.
  { unfold rate, Building.upgrade, Res.incr. simpl.
    destruct (Building.kind b); simpl;
      by rewrite ?qty_insert, ?qty_insert_ne by done. }
  split_and!; [done | | | done |].
  - unfold Building.upgrade, Res.incr. simpl. by rewrite qty_insert.
  - intros k Hk. unfold Building.upgrade, Res.incr. simpl. by rewrite lookup_insert_ne.
  - intros Hop. rewrite produce_output.
    change (Building.operational (Building.upgrade b)) with (Building.operational b).
    rewrite Hop. change (Building.kind (Building.upgrade b)) with (Building.kind b).
    rewrite qty_insert.
    change (Res.qty (Building.production (Building.upgrade b))
                    (Building.product (Building.kind b)))
      with (rate (Building.upgrade b)).
    by rewrite Hrate.
Qed.

Lemma touch_qty key (r : Resource) k : Res.qty (Res.touch key r) k = Res.qty r k.
Proof.
  unfold Res.touch. destruct (decide (key = k)) as [->|Hne].
  - by rewrite qty_insert.
  - by rewrite qty_insert_ne.
Qed.

Lemma touch_present key (r : Resource) : is_Some (r !! key) → Res.touch key r = r.
Proof.
  intros [v E]. unfold Res.touch. rewrite (qty_lookup _ _ _ E). by apply insert_id.
Qed.

Lemma touch_touch key (r : Resource) : Res.touch key (Res.touch key r) = Res.touch key r.
Proof. apply touch_present. unfold Res.touch. rewrite lookup_insert_eq. by eexists. Qed.

Lemma produce_key_building key b :
  (Building.produce_key key b).2
  = if Building.operational b then Building.with_production (Res.touch key) b else b.
Proof. unfold Building.produce_key. by destruct (Building.operational b). Qed.

Lemma produce_building b :
  (Building.produce b).2
  = if Building.operational b
    then Building.with_production (Res.touch (Building.product (Building.kind b))) b
    else b.
Proof. unfold Building.produce. destruct (Building.kind b); apply produce_key_building. Qed.

(** X7. [produce] changes no rate: the only trace it can leave on a
    building is the key of its kind, created at 0 in [production] when it
    was missing.  The kind, name, cost, level and operational flag are
    kept, and [production] is kept up to that key, which only a working
    building creates.  A building whose [production] holds that key comes
    back as it was, and a second [produce] returns the same output and
    changes nothing more. *)
Theorem produce_leaves_building b :
  Building.kind (Building.produce b).2 = Building.kind b
  ∧ Building.name (Building.produce b).2 = Building.name b
  ∧ Building.cost (Building.produce b).2 = Building.cost b
  ∧ Building.level (Building.produce b).2 = Building.level b
  ∧ Building.operational (Building.produce b).2 = Building.operational b
  ∧ Building.production (Building.produce b).2
    = (if Building.operational b
       then <[Building.product (Building.kind b) := rate b]> (Building.production b)
       else Building.production b)
  ∧ (∀ k, k ≠ Building.product (Building.kind b) →
          Building.production (Building.produce b).2 !! k = Building.production b !! k)
  ∧ (∀ k, Res.qty (Building.production (Building.produce b).2) k
          = Res.qty (Building.production b) k)
  ∧ (is_Some (Building.production b !! Building.product (Building.kind b)) →
     (Building.produce b).2 = b)
  ∧ Building.produce (Building.produce b).2
    = ((Building.produce b).1, (Building.produce b).2).
Proof.
  split_and!.
  - rewrite produce_building. by destruct (Building.operational b).
  - rewrite produce_building. by destruct (Building.operational b).
  - rewrite produce_building. by destruct (Building.operational b).
  - rewrite produce_building. by destruct (Building.operational b).
  - rewrite produce_building. by destruct (Building.operational b) eqn:Hop.
  - rewrite produce_building. by destruct (Building.operational b).
  - intros k Hk. rewrite produce_building.
    destruct (Building.operational b); [|done]. simpl. unfold Res.touch.
    by rewrite lookup_insert_ne.
  - intros k. rewrite produce_building.
    destruct (Building.operational b); [apply touch_qty | done].
  - intros Hkey. rewrite produce_building.
    destruct (Building.operational b); [|done].
    destruct b as [kd n c pr l op]. unfold Building.with_production. simpl in *.
    by rewrite touch_present.
  - apply injective_projections; simpl.
    + rewrite !produce_output, produce_building.
      destruct (Building.operational b) eqn:Hop; simpl; [|by rewrite Hop].
      rewrite Hop. by rewrite touch_qty.
    + rewrite (produce_building (Building.produce b).2), produce_building.
      destruct (Building.operational b) eqn:Hop; simpl; [|by rewrite Hop].
      rewrite Hop. unfold Building.with_production. simpl. by rewrite touch_touch.
Qed.

End ProducerFacts.

(** ** More on the engine *)

Section EngineFacts.

Implicit Types (s : GameEngine.t) (g : GameState.t) (inp : Input).

Lemma handleProductionPhase_throw s s' e :
  GameEngine.handleProductionPhase s = (s', Some e) →
  ∃ total,
    totalProduction s = Ok total
    ∧ Res.sub (Res.add (GameEngine.colonyResources s) total) (GameEngine.consumption s)
      = Throw e
    ∧ GameEngine.colonyResources s' = Res.add (GameEngine.colonyResources s) total
    ∧ GameEngine.colonists s'
      = map (λ c, if eligible c then worked c else c) (GameEngine.colonists s).
Proof.
  unfold GameEngine.handleProductionPhase, totalProduction.
  pose proof (building_loop_length (GameEngine.buildings s) Res.new) as Hbs.
  destruct (GameEngine.building_loop (GameEngine.buildings s) Res.new) as [bs total0].
  simpl in *.
  destruct (colonist_loop_steps (GameEngine.colonists s) total0) as [total Hloop].
  rewrite Hloop. simpl.
  unfold Res.sub_assign, Res.add_assign, GameEngine.consumption. simpl.
  rewrite Hbs, length_map.
  destruct (Res.sub _ _) as [after|e'] eqn:E; [done|].
  intros [= <- <-]. exists total. by split_and!.
Qed.

(** X8. The only exception the Production phase can raise is the
    "Insufficient <kind>" of the consumption, for a kind whose quantity
    after production is below what is consumed.  The phase then leaves the
    production added to the ledger and nothing debited, and the colonists
    that worked keep the experience they gained. *)
Theorem production_failure s s' e :
  GameEngine.handleProductionPhase s = (s', Some e) →
  ∃ total k v,
    totalProduction s = Ok total
    ∧ GameEngine.consumption s !! k = Some v
    ∧ tentative (Res.add (GameEngine.colonyResources s) total) k v < 0
    ∧ e = ResourceException ("Insufficient " +:+ k)
    ∧ GameEngine.colonyResources s' = Res.add (GameEngine.colonyResources s) total
    ∧ GameEngine.colonists s'
      = map (λ c, if eligible c then worked c else c) (GameEngine.colonists s).
Proof.
  intros (total & Htotal & Hsub & Hledger & Hcs)%handleProductionPhase_throw.
  unfold Res.sub in Hsub.
  apply sub_loop_throw in Hsub as (pre & k & v & post & Hes & _ & Hneg & ->);
    [|apply NoDup_entries].
  exists total, k, v.
  split_and!; [exact Htotal | | exact Hneg | reflexivity | exact Hledger | exact Hcs].
  apply elem_of_entries. rewrite Hes. apply elem_of_app. right. left.
Qed.

(** With 1000 units of energy missing, the first Production phase cannot
    pay its 4 units of energy. *)
Lemma production_failure_witness :
  ∃ total k v,
    totalProduction starved = Ok total
    ∧ GameEngine.consumption starved !! k = Some v
    ∧ tentative (Res.add (GameEngine.colonyResources starved) total) k v < 0
    ∧ (GameEngine.handleProductionPhase starved).2
      = Some (ResourceException ("Insufficient " +:+ k))
    ∧ GameEngine.colonyResources (GameEngine.handleProductionPhase starved).1
      = Res.add (GameEngine.colonyResources starved) total.
Proof.
  destruct (production_failure starved (GameEngine.handleProductionPhase starved).1
              (ResourceException "Insufficient energy"))
    as (total & k & v & Htotal & Hk & Hneg & He & Hledger & _);
    [vm_compute; reflexivity|].
  exists total, k, v.
  split_and!; [exact Htotal | exact Hk | exact Hneg | | exact Hledger].
  rewrite <- He. vm_compute. reflexivity.
Defined.

(** X9. The phases cycle: three calls of [nextPhase] lead from Production,
    Event or Management back to the same phase, one turn later, and change
    nothing else; Setup is left for Production and never entered again;
    End is kept, with the running flag cleared. *)
Theorem nextPhase_cycle g :
  match GameState.currentPhase g with
  | SETUP =>
      GameState.nextPhase g
      = GameState.mk PRODUCTION (GameState.turn g) (GameState.colonistCount g)
          (GameState.gameRunning g)
  | END =>
      GameState.nextPhase g
      = GameState.mk END (GameState.turn g) (GameState.colonistCount g) false
  | p =>
      GameState.nextPhase (GameState.nextPhase (GameState.nextPhase g))
      = GameState.mk p (Int.add (GameState.turn g) 1) (GameState.colonistCount g)
          (GameState.gameRunning g)
  end
  ∧ GameState.currentPhase (GameState.nextPhase g) ≠ SETUP
  ∧ (GameState.currentPhase (GameState.nextPhase g) = END
     ↔ GameState.currentPhase g = END).
Proof.
  destruct g as [[] t n r]; split_and!; try done; by split.
Qed.

Lemma newBuilding_menu (choice : Z) b :
  GameEngine.newBuilding choice = Some b ↔
  (choice = 1 ∧ b = Building.newSolarPanel)
  ∨ (choice = 2 ∧ b = Building.newGreenhouse)
  ∨ (choice = 3 ∧ b = Building.newOxygenGenerator)
  ∨ (choice = 4 ∧ b = Building.newMaterialFactory).
Proof.
  unfold GameEngine.newBuilding. split.
  - repeat case_match; intros [= <-]; subst; tauto.
  - intros [[-> ->] | [[-> ->] | [[-> ->] | [-> ->]]]]; reflexivity.
Qed.

Lemma menu_cost b :
  b ∈ menu → ∀ k v, Building.getCost b !! k = Some v → 0 <= v <= 100.
Proof.
  unfold menu. rewrite !elem_of_cons, elem_of_nil.
  intros [-> | [-> | [-> | [-> | []]]]];
    by_entries (λ (k : string) (v : Z), 0 <= v <= 100); lia.
Qed.

(** X10. [buildStructure] on a ledger of [int]s never throws.  A number
    that is not on the menu, or a building the ledger cannot afford,
    changes nothing.  Otherwise the building is appended to the list, and
    the ledger is debited by its cost, kind by kind, no quantity of a kind
    of the cost ending below 0. *)
Theorem buildStructure_effect (choice : Z) s :
  (∀ k v, GameEngine.colonyResources s !! k = Some v → Int.in_range v) →
  (GameEngine.buildStructure choice s).2 = None
  ∧ (choice < 1 ∨ 4 < choice → GameEngine.buildStructure choice s = (s, None))
  ∧ ∀ b, GameEngine.newBuilding choice = Some b →
      if Res.canAfford (GameEngine.colonyResources s) (Building.getCost b)
      then
        GameEngine.buildings (GameEngine.buildStructure choice s).1
          = GameEngine.buildings s ++ [b]
        ∧ (∀ k, GameEngine.colonyResources (GameEngine.buildStructure choice s).1 !! k
                = match Building.getCost b !! k with
                  | Some v => Some (Res.qty (GameEngine.colonyResources s) k - v)
                  | None => GameEngine.colonyResources s !! k
                  end)
        ∧ (∀ k v, Building.getCost b !! k = Some v →
                  0 <= Res.qty (GameEngine.colonyResources s) k - v)
        ∧ GameEngine.colonists (GameEngine.buildStructure choice s).1
          = GameEngine.colonists s
        ∧ GameEngine.gameState (GameEngine.buildStructure choice s).1
          = GameEngine.gameState s
      else GameEngine.buildStructure choice s = (s, None).
Proof.
  intros Hrange.
  assert (∀ b, GameEngine.newBuilding choice = Some b →
    Res.canAfford (GameEngine.colonyResources s) (Building.getCost b) = true →
    (∀ k v, Building.getCost b !! k = Some v →
            0 <= Res.qty (GameEngine.colonyResources s) k - v
            ∧ tentative (GameEngine.colonyResources s) k v
              = Res.qty (GameEngine.colonyResources s) k - v)) as Hexact.
  { intros b Hb Hafford k v Hk.
    assert (b ∈ menu) as Hmenu.
    { apply newBuilding_menu in Hb. unfold menu. rewrite !elem_of_cons.
      destruct Hb as [[_ ->] | [[_ ->] | [[_ ->] | [_ ->]]]]; tauto. }
    pose proof (menu_cost b Hmenu k v Hk) as Hv.
    destruct (proj1 (canAfford_true _ _) Hafford k v Hk) as (have & Hhave & Hle).
    pose proof (Hrange k have Hhave) as Hhr.
    rewrite (qty_lookup _ _ _ Hhave). split; [lia|].
    unfold tentative. rewrite (qty_lookup _ _ _ Hhave). apply sub_exact.
    unfold Int.in_range, Int.min_int, Int.max_int in *. lia. }
  assert (∀ b, GameEngine.newBuilding choice = Some b →
    Res.canAfford (GameEngine.colonyResources s) (Building.getCost b) = true →
    ∃ after,
      Res.sub_assign (GameEngine.colonyResources s) (Building.getCost b) = (after, None)
      ∧ ∀ k, after !! k
             = match Building.getCost b !! k with
               | Some v => Some (Res.qty (GameEngine.colonyResources s) k - v)
               | None => GameEngine.colonyResources s !! k
               end) as Hsub.
  { intros b Hb Hafford.
    destruct (sub_assign_ok (GameEngine.colonyResources s) (Building.getCost b))
      as (after & E & Hafter).
    { intros k v Hk. destruct (Hexact b Hb Hafford k v Hk) as [? ->]. done. }
    exists after. split; [done|]. intros k. rewrite Hafter.
    destruct (Building.getCost b !! k) as [v|] eqn:Hk; [|done].
    by destruct (Hexact b Hb Hafford k v Hk) as [_ ->]. }
  split_and!.
  - unfold GameEngine.buildStructure.
    destruct (GameEngine.newBuilding choice) as [b|] eqn:Hb; [|done]. simpl.
    destruct (Res.canAfford _ _) eqn:Hafford; [|done].
    destruct (Hsub b eq_refl Hafford) as (after & -> & _). done.
  - intros Hout. unfold GameEngine.buildStructure.
    destruct (GameEngine.newBuilding choice) as [b|] eqn:Hb; [|done].
    apply newBuilding_menu in Hb. lia.
  - intros b Hb. unfold GameEngine.buildStructure. rewrite Hb. simpl.
    destruct (Res.canAfford _ _) eqn:Hafford; [|done].
    destruct (Hsub b Hb Hafford) as (after & -> & Hafter). simpl.
    split_and!; try done.
    intros k v Hk. by destruct (Hexact b Hb Hafford k v Hk).
Qed.

(** A Solar Panel bought with the initial ledger: the ledger is left with
    30 materials and nothing else. *)
Lemma buildStructure_effect_witness :
  (GameEngine.buildStructure 1 GameEngine.new).2 = None
  ∧ GameEngine.colonyResources (GameEngine.buildStructure 1 GameEngine.new).1
    = quantities 0 0 30 0.
Proof.
  split; [|vm_compute; reflexivity].
  apply (buildStructure_effect 1 GameEngine.new).
  by_entries (λ (k : string) (v : Z), Int.in_range v); vm_compute; split; discriminate.
Defined.

(** X11. [assignColonists]: the number 0 and the numbers beyond the size
    of the roster change nothing; a number [n] from 1 to the size marks the
    colonist at position [n - 1] as assigned and changes nothing else: the
    other colonists, the ledger, the buildings, the events and the game
    state are kept. *)
Theorem assignColonists_effect (choice : N) s :
  ((choice = 0 ∨ N.of_nat (length (GameEngine.colonists s)) < choice)%N →
   GameEngine.assignColonists choice s = s)
  ∧ ((0 < choice ≤ N.of_nat (length (GameEngine.colonists s)))%N →
     (∀ i, GameEngine.colonists (GameEngine.assignColonists choice s) !! i
           = if decide (i = N.to_nat (choice - 1))
             then Colonist.setAssigned true <$> GameEngine.colonists s !! i
             else GameEngine.colonists s !! i)
     ∧ is_Some (GameEngine.colonists s !! N.to_nat (choice - 1))
     ∧ length (GameEngine.colonists (GameEngine.assignColonists choice s))
       = length (GameEngine.colonists s)
     ∧ GameEngine.colonyResources (GameEngine.assignColonists choice s)
       = GameEngine.colonyResources s
     ∧ GameEngine.buildings (GameEngine.assignColonists choice s)
       = GameEngine.buildings s
     ∧ GameEngine.events (GameEngine.assignColonists choice s)
       = GameEngine.events s
     ∧ GameEngine.gameState (GameEngine.assignColonists choice s)
       = GameEngine.gameState s).
Proof.
  unfold GameEngine.assignColonists. split.
  - intros Hout.
    destruct (N.ltb_spec 0 choice), (N.leb_spec choice (N.of_nat (length (GameEngine.colonists s))));
      simpl; try done; lia.
  - intros Hin.
    destruct (N.ltb_spec 0 choice), (N.leb_spec choice (N.of_nat (length (GameEngine.colonists s))));
      simpl; try lia.
    split_and!; try done.
    + intros i. case_decide as Hi.
      * subst i. apply list_lookup_alter_eq.
      * by apply list_lookup_alter_ne.
    + apply lookup_lt_is_Some. lia.
    + apply length_alter.
Qed.

End EngineFacts.

(** ** More on the event catalog *)

Section Catalog.

Implicit Types (e : Event.t) (evs pre mid post : list Event.t) (roll : Z).

Lemma triggered_app roll pre post :
  GameEngine.triggered roll (pre ++ post)
  = match GameEngine.triggered roll pre with
    | Some e => Some e
    | None => GameEngine.triggered roll post
    end.
Proof.
  induction pre as [|e pre IH]; simpl; [done|].
  by destruct (roll <=? Event.getProbability e).
Qed.

Lemma triggered_shadowed roll pre e' mid e post :
  Event.probability e <= Event.probability e' →
  GameEngine.triggered roll (pre ++ e' :: mid ++ e :: post)
  = GameEngine.triggered roll (pre ++ e' :: mid ++ post).
Proof.
  intros Hle. rewrite !(triggered_app roll pre).
  destruct (GameEngine.triggered roll pre); [done|]. simpl.
  unfold Event.getProbability.
  destruct (Z.leb_spec roll (Event.probability e')); [done|].
  rewrite !(triggered_app roll mid).
  destruct (GameEngine.triggered roll mid); [done|]. simpl.
  unfold Event.getProbability.
  destruct (Z.leb_spec roll (Event.probability e)); [lia | done].
Qed.

(** X12. An event that stands in the catalog behind an event of at least
    its weight is dead: taking it out changes the event no roll selects.
    Meteor Shower (10) stands behind Solar Storm (15), so in no state of a
    game and for no roll is Meteor Shower executed. *)
Theorem shadowed_event_is_dead roll :
  (∀ pre e' mid e post,
     Event.probability e <= Event.probability e' →
     GameEngine.triggered roll (pre ++ e' :: mid ++ e :: post)
     = GameEngine.triggered roll (pre ++ e' :: mid ++ post))
  ∧ ∀ s, GameEngine.reachable s →
      GameEngine.triggered roll (GameEngine.events s)
        = GameEngine.triggered roll [Event.newSolarStorm; Event.newTradeShip]
      ∧ Event.kind <$> GameEngine.triggered roll (GameEngine.events s)
        ≠ Some Event.MeteorShower.
Proof.
  split; [intros; by apply triggered_shadowed|].
  intros s ->%reachable_events.
  assert (GameEngine.triggered roll (GameEngine.events GameEngine.new)
          = GameEngine.triggered roll [Event.newSolarStorm; Event.newTradeShip]) as E.
  { apply (triggered_shadowed roll [] Event.newSolarStorm [Event.newTradeShip]
             Event.newMeteorShower []). simpl. lia. }
  split; [done|]. rewrite E. simpl. unfold Event.getProbability.
  by destruct (roll <=? _); [|destruct (roll <=? _)].
Qed.

End Catalog.

(** ** A whole game *)

Section WholeGame.

Implicit Types (s : GameEngine.t) (inp : Input) (f e m o : Z).

#[local] Arguments quantities : simpl never.
#[local] Arguments Res.qty : simpl never.
#[local] Arguments Res.touch : simpl never.

(** *** The ledger operations on the four kinds *)

Lemma add_quantities f e m o f' e' m' o' :
  Res.add (quantities f e m o) (quantities f' e' m' o')
  = quantities (Int.add f f') (Int.add e e') (Int.add m m') (Int.add o o').
Proof. reflexivity. Qed.

Lemma sub_quantities f e m o f' e' m' o' :
  Res.sub (quantities f e m o) (quantities f' e' m' o')
  = if Int.sub e e' <? 0 then Throw (ResourceException "Insufficient energy")
    else if Int.sub f f' <? 0 then Throw (ResourceException "Insufficient food")
    else if Int.sub m m' <? 0 then Throw (ResourceException "Insufficient materials")
    else if Int.sub o o' <? 0 then Throw (ResourceException "Insufficient oxygen")
    else Ok (quantities (Int.sub f f') (Int.sub e e') (Int.sub m m') (Int.sub o o')).
Proof. reflexivity. Qed.

Lemma canAfford_quantities f e m o f' e' m' o' :
  Res.canAfford (quantities f e m o) (quantities f' e' m' o')
  = if e <? e' then false else if f <? f' then false
    else if m <? m' then false else if o <? o' then false else true.
Proof. reflexivity. Qed.

Lemma small_in_range z : -1000000 <= z <= 1000000 → Int.in_range z.
Proof. unfold Int.in_range, Int.min_int, Int.max_int. lia. Qed.

Lemma add_small a b : -1000000 <= a + b <= 1000000 → Int.add a b = a + b.
Proof. intros. by apply add_exact, small_in_range. Qed.

Lemma sub_small a b : -1000000 <= a - b <= 1000000 → Int.sub a b = a - b.
Proof. intros. by apply sub_exact, small_in_range. Qed.

(** Adding a delta whose four quantities lie between 0 and 100. *)
Lemma add_output f e m o f' e' m' o' :
  0 <= f <= 900000 → 0 <= e <= 900000 → 0 <= m <= 900000 → 0 <= o <= 900000 →
  0 <= f' <= 100 → 0 <= e' <= 100 → 0 <= m' <= 100 → 0 <= o' <= 100 →
  Res.add_assign (quantities f e m o) (quantities f' e' m' o')
  = quantities (f + f') (e + e') (m + m') (o + o').
Proof.
  intros. unfold Res.add_assign. rewrite add_quantities.
  by rewrite !add_small by lia.
Qed.

(** *** The producers of a running game *)

Lemma menu_produce b :
  b ∈ menu →
  Building.isOperational b = true
  ∧ ∃ f e m o,
      Building.produce b = (quantities f e m o, b)
      ∧ 0 <= f <= 100 ∧ 0 <= e <= 100 ∧ 0 <= m <= 100 ∧ 0 <= o <= 100.
Proof.
  unfold menu. rewrite !elem_of_cons, elem_of_nil.
  intros [-> | [-> | [-> | [-> | []]]]]; (split; [reflexivity|]).
  - exists 100, 15, 50, 100. split; [reflexivity | lia].
  - exists 20, 100, 50, 100. split; [reflexivity | lia].
  - exists 100, 100, 50, 10. split; [reflexivity | lia].
  - exists 100, 100, 8, 100. split; [reflexivity | lia].
Qed.

Lemma building_loop_menu (bs : list Building.t) :
  Forall (λ b, b ∈ menu) bs →
  ∀ f e m o,
    0 <= f → 0 <= e → 0 <= m → 0 <= o →
    f + 100 * Z.of_nat (length bs) <= 900000 →
    e + 100 * Z.of_nat (length bs) <= 900000 →
    m + 100 * Z.of_nat (length bs) <= 900000 →
    o + 100 * Z.of_nat (length bs) <= 900000 →
    ∃ f' e' m' o',
      GameEngine.building_loop bs (quantities f e m o) = (bs, quantities f' e' m' o')
      ∧ f <= f' <= f + 100 * Z.of_nat (length bs)
      ∧ e <= e' <= e + 100 * Z.of_nat (length bs)
      ∧ m <= m' <= m + 100 * Z.of_nat (length bs)
      ∧ o <= o' <= o + 100 * Z.of_nat (length bs).
Proof.
  induction 1 as [|b bs Hb _ IH]; intros f e m o Hf He Hm Ho Hf' He' Hm' Ho'.
  - exists f, e, m, o. simpl. split; [done | lia].
  - destruct (menu_produce b Hb) as (Hop & bf & be & bm & bo & Hout & ?).
    rewrite length_cons, Nat2Z.inj_succ in *.
    cbn [GameEngine.building_loop]. rewrite Hop, Hout.
    rewrite add_output by lia.
    destruct (IH (f + bf) (e + be) (m + bm) (o + bo)) as (f' & e' & m' & o' & -> & ?);
      [lia..|].
    exists f', e', m', o'. split; [done | lia].
Qed.

Lemma work_healthy (c : Colonist.t) n :
  healthy n c → n <= 100 →
  ∃ f e m o,
    Colonist.work c = Ok (quantities f e m o, worked c)
    ∧ 0 <= f <= 100 ∧ 0 <= e <= 100 ∧ 0 <= m <= 100 ∧ 0 <= o <= 100
    ∧ healthy (n + 1) (worked c).
Proof.
  intros [Hh Hx] Hn. destruct c as [nm sp x h a]. simpl in *. subst h.
  assert (Int.add x 1 = x + 1) as Hx1 by (apply add_small; lia).
  assert (∀ d, 8 <= d → 0 <= Int.div (x + 1) d <= 13) as Hdiv.
  { intros d Hd. unfold Int.div.
    assert (0 <= (x + 1) ÷ d) by (apply Z.quot_pos; lia).
    assert ((x + 1) ÷ d <= 13) by (apply Z.quot_le_upper_bound; nia).
    rewrite wrap_id by (apply small_in_range; lia). lia. }
  unfold Colonist.work, worked. cbn [Colonist.health Colonist.experience
    Colonist.name Colonist.specialization Colonist.assigned]. rewrite Hx1.
  assert (healthy (n + 1) (Colonist.mk nm sp (x + 1) 100 a)) as Hhealthy.
  { split; simpl; lia. }
  change (100 <? 50) with false. cbv iota.
  destruct (String.eqb sp "Engineer");
    [|destruct (String.eqb sp "Scientist"); [|destruct (String.eqb sp "Farmer")]].
  - exists 100, 100, (Int.add 5 (Int.div (x + 1) 10)), 100.
    split; [reflexivity|]. pose proof (Hdiv 10 ltac:(lia)).
    rewrite add_small by lia. split_and!; try done; lia.
  - exists 100, (Int.add 3 (Int.div (x + 1) 15)), 50, (Int.add 2 (Int.div (x + 1) 20)).
    split; [reflexivity|]. pose proof (Hdiv 15 ltac:(lia)). pose proof (Hdiv 20 ltac:(lia)).
    rewrite !add_small by lia. split_and!; try done; lia.
  - exists (Int.add 8 (Int.div (x + 1) 8)), 100, 50, 100.
    split; [reflexivity|]. pose proof (Hdiv 8 ltac:(lia)).
    rewrite add_small by lia. split_and!; try done; lia.
  - exists 2, 100, 2, 100. split; [reflexivity|]. split_and!; try done; lia.
Qed.

Lemma colonist_loop_healthy (cs : list Colonist.t) n :
  Forall (healthy n) cs → n <= 100 →
  ∀ f e m o,
    0 <= f → 0 <= e → 0 <= m → 0 <= o →
    f + 100 * Z.of_nat (length cs) <= 900000 →
    e + 100 * Z.of_nat (length cs) <= 900000 →
    m + 100 * Z.of_nat (length cs) <= 900000 →
    o + 100 * Z.of_nat (length cs) <= 900000 →
    ∃ cs' f' e' m' o',
      GameEngine.colonist_loop cs (quantities f e m o) = (cs', Ok (quantities f' e' m' o'))
      ∧ Forall (healthy (n + 1)) cs'
      ∧ f <= f' <= f + 100 * Z.of_nat (length cs)
      ∧ e <= e' <= e + 100 * Z.of_nat (length cs)
      ∧ m <= m' <= m + 100 * Z.of_nat (length cs)
      ∧ o <= o' <= o + 100 * Z.of_nat (length cs).
Proof.
  intros Hall Hn. induction Hall as [|c cs Hc _ IH];
    intros f e m o Hf He Hm Ho Hf' He' Hm' Ho'.
  - exists [], f, e, m, o. simpl. split_and!; [done | done | lia..].
  - rewrite length_cons, Nat2Z.inj_succ in *. cbn [GameEngine.colonist_loop].
    destruct (negb (Colonist.assigned c) && (50 <? Colonist.health c)).
    + destruct (work_healthy c n Hc Hn) as (cf & ce & cm & co & -> & ? & ? & ? & ? & Hc').
      rewrite add_output by lia.
      destruct (IH (f + cf) (e + ce) (m + cm) (o + co))
        as (cs' & f' & e' & m' & o' & -> & Hcs' & ?); [lia..|].
      exists (worked c :: cs'), f', e', m', o'.
      split_and!; [done | by constructor | lia..].
    + destruct (IH f e m o) as (cs' & f' & e' & m' & o' & -> & Hcs' & ?); [lia..|].
      exists (c :: cs'), f', e', m', o'.
      split_and!; [done | | lia..].
      constructor; [|done]. destruct Hc as [? ?]. split; [done | lia].
Qed.

(** *** The phases of a running game *)

Lemma thriving_passes s :
  thriving s → 0 <= passes (GameEngine.gameState s) <= 27.
Proof.
  intros (_ & Hphase & Hturn & _). unfold passes.
  destruct (GameState.currentPhase (GameEngine.gameState s)); try done; lia.
Qed.

Lemma thriving_production s :
  thriving s →
  GameState.currentPhase (GameEngine.gameState s) = PRODUCTION →
  ∃ cs ledger,
    GameEngine.handleProductionPhase s
    = (GameEngine.mk (GameEngine.gameState s) ledger (GameEngine.buildings s) cs
         (GameEngine.events s), None)
    ∧ identity <$> cs = founders
    ∧ Forall (healthy (passes (GameEngine.gameState s) + 1)) cs
    ∧ stocked EVENT (passes (GameEngine.gameState s) + 1) ledger.
Proof.
  intros Hs Hp. pose proof (thriving_passes s Hs) as Hpasses.
  destruct Hs as (_ & _ & Hturn & _ & _ & _ & Hid & Hcs & (rest & Hbs & Hrest & Hlen) & Hledger).
  rewrite Hp in Hledger.
  destruct Hledger as (f & e & m & o & Hr & Hf & He & Hm & Ho & Hf0 & He0 & Hm0 & Ho0).
  assert (length (GameEngine.colonists s) = 3%nat) as Hcslen.
  { by rewrite <- (length_fmap identity), Hid. }
  pose proof (colonist_loop_identity (GameEngine.colonists s)) as Hloopid.
  unfold GameEngine.handleProductionPhase. rewrite Hbs.
  cbn [GameEngine.building_loop].
  change (Building.isOperational Building.newSolarPanel) with true.
  change (Building.produce Building.newSolarPanel)
    with (quantities 100 15 50 100, Building.newSolarPanel).
  change (Building.isOperational Building.newGreenhouse) with true.
  change (Building.produce Building.newGreenhouse)
    with (quantities 20 100 50 100, Building.newGreenhouse).
  cbv iota beta.
  change Res.new with (quantities 100 100 50 100).
  rewrite !add_output by lia.
  destruct (building_loop_menu rest Hrest (100 + 100 + 20) (100 + 15 + 100)
              (50 + 50 + 50) (100 + 100 + 100))
    as (bf & be & bm & bo & -> & ? & ? & ? & ?); [lia..|].
  cbn [GameEngine.with_buildings GameEngine.colonists GameEngine.with_colonists
       GameEngine.with_colonyResources GameEngine.colonyResources
       GameEngine.gameState GameEngine.buildings GameEngine.events fst snd].
  specialize (Hloopid (quantities bf be bm bo)).
  destruct (colonist_loop_healthy (GameEngine.colonists s) _ Hcs ltac:(lia) bf be bm bo)
    as (cs & tf & te & tm & to & Hloop & Hcs' & ? & ? & ? & ?); [lia..|].
  rewrite Hloop in Hloopid |- *. simpl in Hloopid.
  cbn [GameEngine.with_buildings GameEngine.colonists GameEngine.with_colonists
       GameEngine.with_colonyResources GameEngine.colonyResources
       GameEngine.gameState GameEngine.buildings GameEngine.events fst snd].
  rewrite Hcslen in *.
  assert (length cs = 3%nat) as Hcslen'.
  { by rewrite <- (length_fmap identity), Hloopid, Hid. }
  rewrite Hr. unfold Res.add_assign at 1. rewrite add_quantities.
  rewrite !add_small by lia.
  rewrite consumption_quantities.
  cbn [GameEngine.with_buildings GameEngine.colonists GameEngine.with_colonists
       GameEngine.with_colonyResources GameEngine.colonyResources
       GameEngine.gameState GameEngine.buildings GameEngine.events fst snd].
  rewrite Hcslen'. cbn [length]. rewrite !Nat2Z.inj_succ.
  rewrite !wrap_id by (apply small_in_range; lia).
  unfold Res.sub_assign. rewrite sub_quantities.
  rewrite !sub_small by lia.
  repeat match goal with
         | |- context [?a <? 0] =>
             destruct (Z.ltb_spec a 0); [lia|]
         end.
  eexists cs, _. split; [reflexivity|].
  split_and!; [by rewrite Hloopid | done |].
  eexists _, _, _, _. split; [reflexivity|]. lia.
Qed.

Lemma founders_engineer (cs : list Colonist.t) resources :
  identity <$> cs = founders →
  Event.repair_loop cs resources = Res.incr "energy" 10 resources.
Proof.
  destruct cs as [|c cs]; [done|]. intros [= Hname Hspec _]. simpl.
  by rewrite Hspec.
Qed.

Lemma thriving_event s roll :
  thriving s →
  GameState.currentPhase (GameEngine.gameState s) = EVENT →
  ∃ ledger,
    GameEngine.handleEventPhase roll s
    = GameEngine.mk (GameEngine.gameState s) ledger (GameEngine.buildings s)
        (GameEngine.colonists s) (GameEngine.events s)
    ∧ stocked MANAGEMENT (passes (GameEngine.gameState s) + 1) ledger.
Proof.
  intros Hs Hp. pose proof (thriving_passes s Hs) as Hpasses.
  destruct Hs as (_ & _ & _ & _ & _ & Hevs & Hid & _ & _ & Hledger).
  rewrite Hp in Hledger.
  destruct Hledger as (f & e & m & o & Hr & Hf & He & Hm & Ho & Hf0 & He0 & Hm0 & Ho0).
  destruct s as [g r bs cs evs]. cbn [GameEngine.events GameEngine.colonists
    GameEngine.colonyResources GameEngine.gameState GameEngine.buildings] in *.
  subst r evs. unfold GameEngine.handleEventPhase.
  cbn [GameEngine.events GameEngine.colonists]. rewrite triggered_catalog.
  destruct (roll <=? 15); [|destruct (roll <=? 25)].
  - unfold GameEngine.with_colonyResources, Event.execute. simpl.
    rewrite (founders_engineer cs _ Hid).
    change (Event.execute_base Event.newSolarStorm (quantities f e m o))
      with (Res.add (quantities f e m o) (quantities 100 (-30) 50 100)).
    rewrite add_quantities.
    change (Res.incr "energy" 10 (quantities (Int.add f 100) (Int.add e (-30))
                                     (Int.add m 50) (Int.add o 100)))
      with (quantities (Int.add f 100) (Int.add (Int.add e (-30)) 10)
              (Int.add m 50) (Int.add o 100)).
    rewrite !add_small by (rewrite ?add_small by lia; lia).
    eexists. split; [reflexivity|].
    eexists _, _, _, _. split; [reflexivity|]. lia.
  - unfold GameEngine.with_colonyResources, Event.execute. simpl.
    change (Event.execute_base Event.newTradeShip (quantities f e m o))
      with (Res.add (quantities f e m o) (quantities 15 100 20 100)).
    rewrite add_quantities. rewrite !add_small by lia.
    eexists. split; [reflexivity|].
    eexists _, _, _, _. split; [reflexivity|]. lia.
  - eexists. split; [reflexivity|].
    exists f, e, m, o. split; [reflexivity|]. lia.
Qed.

Lemma menu_getCost b :
  b ∈ menu →
  ∃ cf ce cm co,
    Building.getCost b = quantities cf ce cm co
    ∧ cf = 100 ∧ 0 <= ce <= 100 ∧ 0 <= cm <= 100 ∧ co = 100.
Proof.
  unfold menu. rewrite !elem_of_cons, elem_of_nil.
  intros [-> | [-> | [-> | [-> | []]]]].
  - exists 100, 100, 20, 100. split; [reflexivity | lia].
  - exists 100, 10, 30, 100. split; [reflexivity | lia].
  - exists 100, 15, 25, 100. split; [reflexivity | lia].
  - exists 100, 20, 40, 100. split; [reflexivity | lia].
Qed.

Lemma thriving_build s (choice : Z) :
  thriving s →
  GameState.currentPhase (GameEngine.gameState s) = MANAGEMENT →
  ∃ ledger rest,
    GameEngine.buildStructure choice s
    = (GameEngine.mk (GameEngine.gameState s) ledger
         (Building.newSolarPanel :: Building.newGreenhouse :: rest)
         (GameEngine.colonists s) (GameEngine.events s), None)
    ∧ Forall (λ b, b ∈ menu) rest
    ∧ Z.of_nat (length rest) < GameState.turn (GameEngine.gameState s) + 1
    ∧ stocked PRODUCTION (passes (GameEngine.gameState s) + 1) ledger.
Proof.
  intros Hs Hp. pose proof (thriving_passes s Hs) as Hpasses.
  destruct Hs as (_ & _ & _ & _ & _ & _ & _ & _ & (rest & Hbs & Hrest & Hlen) & Hledger).
  rewrite Hp in Hledger.
  destruct Hledger as (f & e & m & o & Hr & Hf & He & Hm & Ho & Hf0 & He0 & Hm0 & Ho0).
  assert (stocked PRODUCTION (passes (GameEngine.gameState s) + 1) (quantities f e m o))
    as Hsame.
  { exists f, e, m, o. split; [reflexivity|]. lia. }
  destruct s as [g r bs cs evs]. simpl in *. subst r bs.
  unfold GameEngine.buildStructure.
  destruct (GameEngine.newBuilding choice) as [b|] eqn:Hb.
  - assert (b ∈ menu) as Hmenu.
    { apply newBuilding_menu in Hb. unfold menu. rewrite !elem_of_cons.
      destruct Hb as [[_ ->] | [[_ ->] | [[_ ->] | [_ ->]]]]; tauto. }
    destruct (menu_getCost b Hmenu) as (cf & ce & cm & co & Hcost & -> & ? & ? & ->).
    cbv zeta. rewrite Hcost. cbn [GameEngine.colonyResources].
    rewrite canAfford_quantities.
    destruct (Z.ltb_spec e ce);
      [exists (quantities f e m o), rest; split_and!; [done | done | lia | done]|].
    destruct (Z.ltb_spec f 100); [lia|].
    destruct (Z.ltb_spec m cm);
      [exists (quantities f e m o), rest; split_and!; [done | done | lia | done]|].
    destruct (Z.ltb_spec o 100); [lia|].
    unfold Res.sub_assign. rewrite sub_quantities. rewrite !sub_small by lia.
    repeat match goal with
           | |- context [?a <? 0] => destruct (Z.ltb_spec a 0); [lia|]
           end.
    eexists _, (rest ++ [b]). split; [reflexivity|]. split_and!.
    + apply Forall_app. split; [done|]. by constructor.
    + rewrite length_app. simpl. lia.
    + eexists _, _, _, _. split; [reflexivity|]. lia.
  - exists (quantities f e m o), rest. split_and!; [done | done | lia | done].
Qed.

Lemma handleManagementPhase_cases inp s :
  GameEngine.handleManagementPhase inp s
  = if choice inp =? 1 then GameEngine.buildStructure (structure inp) s
    else if choice inp =? 2 then (GameEngine.assignColonists (colonist inp) s, None)
    else if choice inp =? 3 then (GameEngine.restColonists s, None)
    else (s, None).
Proof.
  unfold GameEngine.handleManagementPhase, GameEngine.saveGame.
  destruct (choice inp) as [|[[p|p|]|[p|[p|p|]|]|]|p]; reflexivity.
Qed.

Lemma healthy_mono n n' (c : Colonist.t) : n <= n' → healthy n c → healthy n' c.
Proof. intros Hn [? ?]. split; [done | lia]. Qed.

Lemma thriving_management s inp :
  thriving s →
  GameState.currentPhase (GameEngine.gameState s) = MANAGEMENT →
  ∃ ledger rest cs,
    GameEngine.handleManagementPhase inp s
    = (GameEngine.mk (GameEngine.gameState s) ledger
         (Building.newSolarPanel :: Building.newGreenhouse :: rest) cs
         (GameEngine.events s), None)
    ∧ Forall (λ b, b ∈ menu) rest
    ∧ Z.of_nat (length rest) < GameState.turn (GameEngine.gameState s) + 1
    ∧ stocked PRODUCTION (passes (GameEngine.gameState s) + 1) ledger
    ∧ identity <$> cs = founders
    ∧ Forall (healthy (passes (GameEngine.gameState s) + 1)) cs.
Proof.
  intros Hs Hp. pose proof (thriving_passes s Hs) as Hpasses.
  pose proof (thriving_build s (structure inp) Hs Hp) as Hbuild.
  destruct Hs as (_ & _ & _ & _ & _ & _ & Hid & Hcs & (rest & Hbs & Hrest & Hlen) & Hledger).
  rewrite Hp in Hledger.
  destruct Hledger as (f & e & m & o & Hr & Hf & He & Hm & Ho & Hf0 & He0 & Hm0 & Ho0).
  assert (stocked PRODUCTION (passes (GameEngine.gameState s) + 1) (quantities f e m o))
    as Hsame.
  { exists f, e, m, o. split; [reflexivity|]. lia. }
  assert (Forall (healthy (passes (GameEngine.gameState s) + 1)) (GameEngine.colonists s))
    as Hcs'.
  { eapply Forall_impl; [exact Hcs|]. intros c. apply healthy_mono. lia. }
  rewrite handleManagementPhase_cases.
  destruct (choice inp =? 1); [|destruct (choice inp =? 2); [|destruct (choice inp =? 3)]].
  - destruct Hbuild as (ledger & rest' & -> & ? & ? & ?).
    by exists ledger, rest', (GameEngine.colonists s).
  - exists (quantities f e m o), rest, (GameEngine.colonists (GameEngine.assignColonists (colonist inp) s)).
    split_and!; [| done | lia | done | by rewrite assignColonists_identity |].
    + unfold GameEngine.assignColonists. destruct (_ && _); destruct s; simpl in *; by subst.
    + unfold GameEngine.assignColonists. destruct (_ && _); [|done]. simpl.
      apply Forall_alter; [done|]. by intros c _ [? ?].
  - exists (quantities f e m o), rest, (GameEngine.colonists (GameEngine.restColonists s)).
    split_and!; [| done | lia | done | by rewrite restColonists_identity |].
    + destruct s; simpl in *; by subst.
    + unfold GameEngine.restColonists. simpl.
      change (map Colonist.rest) with (fmap (M:=list) Colonist.rest).
      apply Forall_fmap. eapply Forall_impl; [exact Hcs'|].
      intros c [Hh Hx]. split; [|done]. simpl. by rewrite Hh.
  - exists (quantities f e m o), rest, (GameEngine.colonists s).
    split_and!; [| done | lia | done | done | done].
    destruct s; simpl in *; by subst.
Qed.

(** *** One pass of a running game *)

Lemma qty_food f e m o : Res.qty (quantities f e m o) "food" = f.
Proof. reflexivity. Qed.

Lemma qty_oxygen f e m o : Res.qty (quantities f e m o) "oxygen" = o.
Proof. reflexivity. Qed.

Lemma touch_food f e m o : Res.touch "food" (quantities f e m o) = quantities f e m o.
Proof. reflexivity. Qed.

Lemma touch_oxygen f e m o : Res.touch "oxygen" (quantities f e m o) = quantities f e m o.
Proof. reflexivity. Qed.

Lemma check_stocked (g : GameState.t) f e m o bs (cs : list Colonist.t) evs :
  0 < f → 0 < o → length cs = 3%nat →
  GameEngine.checkGameConditions (GameEngine.mk g (quantities f e m o) bs cs evs)
  = if 10 <=? GameState.turn g
    then (GameEngine.mk (GameState.endGame g) (quantities f e m o) bs cs evs, Win)
    else (GameEngine.mk g (quantities f e m o) bs cs evs, Continue).
Proof.
  intros Hf Ho Hcs.
  unfold GameEngine.checkGameConditions, GameState.getTurn,
    GameEngine.with_colonyResources, GameEngine.with_gameState.
  cbn [GameEngine.gameState GameEngine.colonists GameEngine.colonyResources
       GameEngine.buildings GameEngine.events].
  rewrite Hcs. change (3 <=? Z.of_nat 3) with true. rewrite andb_true_r.
  destruct (10 <=? GameState.turn g); [done|].
  rewrite qty_food, touch_food, qty_oxygen, touch_oxygen.
  destruct (Z.leb_spec f 0); [lia|]. destruct (Z.leb_spec o 0); [lia|].
  by destruct cs.
Qed.

Lemma pass_assemble inp s ledger bs (cs : list Colonist.t) p n :
  GameEngine.handlePhase inp s
  = (GameEngine.mk (GameEngine.gameState s) ledger bs cs (GameEngine.events s), None) →
  stocked p n ledger → length cs = 3%nat →
  GameEngine.loopBody inp s
  = let g := GameState.nextPhase (GameEngine.gameState s) in
    if 10 <=? GameState.turn g
    then (GameEngine.mk (GameState.endGame g) ledger bs cs (GameEngine.events s),
          [CallHandler (GameState.currentPhase (GameEngine.gameState s));
           CallNextPhase; CallCheckGameConditions Win])
    else (GameEngine.mk g ledger bs cs (GameEngine.events s),
          [CallHandler (GameState.currentPhase (GameEngine.gameState s));
           CallNextPhase; CallCheckGameConditions Continue]).
Proof.
  intros Hhandle (f & e & m & o & -> & _ & _ & _ & _ & Hfloor) Hcs.
  assert (0 < f ∧ 0 < o) as [Hf Ho] by (destruct p; lia).
  unfold GameEngine.loopBody, GameState.getCurrentPhase. rewrite Hhandle.
  unfold GameEngine.with_gameState.
  cbn [GameEngine.gameState GameEngine.colonyResources
       GameEngine.buildings GameEngine.colonists GameEngine.events].
  rewrite check_stocked by done. cbv zeta.
  by destruct (10 <=? _).
Qed.

Lemma thriving_handle s inp :
  thriving s →
  ∃ ledger rest cs,
    GameEngine.handlePhase inp s
    = (GameEngine.mk (GameEngine.gameState s) ledger
         (Building.newSolarPanel :: Building.newGreenhouse :: rest) cs
         (GameEngine.events s), None)
    ∧ Forall (λ b, b ∈ menu) rest
    ∧ Z.of_nat (length rest)
      < GameState.turn (GameState.nextPhase (GameEngine.gameState s))
    ∧ stocked (GameState.currentPhase (GameState.nextPhase (GameEngine.gameState s)))
              (passes (GameEngine.gameState s) + 1) ledger
    ∧ identity <$> cs = founders
    ∧ Forall (healthy (passes (GameEngine.gameState s) + 1)) cs.
Proof.
  intros Hs. pose proof (thriving_passes s Hs) as Hpasses.
  pose proof Hs as (_ & Hphase & Hturn & _ & _ & _ & Hid & Hcs
                    & (rest & Hbs & Hrest & Hlen) & Hledger).
  assert (Forall (healthy (passes (GameEngine.gameState s) + 1)) (GameEngine.colonists s))
    as Hcs'.
  { eapply Forall_impl; [exact Hcs|]. intros c. apply healthy_mono. lia. }
  unfold GameEngine.handlePhase, GameState.getCurrentPhase, GameState.nextPhase.
  destruct (GameState.currentPhase (GameEngine.gameState s)) eqn:Hp; [| | | |done].
  - exists (GameEngine.colonyResources s), rest, (GameEngine.colonists s).
    split_and!; [| done | done | | done | done].
    + destruct s. simpl in *. by subst.
    + destruct Hledger as (f & e & m & o & Hr & ?). exists f, e, m, o.
      split; [done|]. simpl. lia.
  - destruct (thriving_production s Hs Hp) as (cs & ledger & -> & ? & ? & ?).
    exists ledger, rest, cs. rewrite Hbs. by split_and!.
  - destruct (thriving_event s (roll inp) Hs Hp) as (ledger & -> & ?).
    exists ledger, rest, (GameEngine.colonists s). rewrite Hbs. by split_and!.
  - destruct (thriving_management s inp Hs Hp) as (ledger & rest' & cs & -> & ? & ? & ? & ? & ?).
    exists ledger, rest', cs. simpl. rewrite add_small by lia. by split_and!.
Qed.

Lemma thriving_pass s inp :
  thriving s →
  (GameEngine.handlePhase inp s).2 = None
  ∧ ((passes (GameEngine.gameState s) = 27
      ∧ won (GameEngine.loopBody inp s).1
      ∧ (GameEngine.loopBody inp s).2
        = [CallHandler (GameState.currentPhase (GameEngine.gameState s));
           CallNextPhase; CallCheckGameConditions Win])
     ∨ (passes (GameEngine.gameState s) < 27
        ∧ thriving (GameEngine.loopBody inp s).1
        ∧ passes (GameEngine.gameState (GameEngine.loopBody inp s).1)
          = passes (GameEngine.gameState s) + 1
        ∧ (GameEngine.loopBody inp s).2
          = [CallHandler (GameState.currentPhase (GameEngine.gameState s));
             CallNextPhase; CallCheckGameConditions Continue])).
Proof.
  intros Hs. pose proof (thriving_passes s Hs) as Hpasses.
  destruct (thriving_handle s inp Hs)
    as (ledger & rest & cs & Hhandle & Hrest & Hlen & Hledger & Hid & Hcs).
  destruct Hs as (Hrun & Hphase & Hturn & Hsetup & Hcount & Hevs & _).
  assert (length cs = 3%nat) as Hlencs.
  { by rewrite <- (length_fmap identity), Hid. }
  rewrite Hhandle. split; [done|].
  rewrite (pass_assemble inp s ledger _ cs _ _ Hhandle Hledger Hlencs). cbv zeta.
  destruct s as [[p t n r] ledger0 bs0 cs0 evs]. unfold passes in *.
  cbn [GameEngine.gameState GameEngine.events GameState.currentPhase GameState.turn
       GameState.colonistCount GameState.gameRunning] in *. subst n r.
  destruct p; [| | | |done]; unfold GameState.nextPhase in *;
    cbn [GameState.currentPhase GameState.turn GameState.colonistCount
         GameState.gameRunning] in *.
  - rewrite (Hsetup eq_refl) in *. right. simpl. unfold thriving, passes. simpl.
    split_and!; try done; try lia. by exists rest.
  - destruct (Z.leb_spec 10 t); [lia|]. right.
    replace (3 * t - 2 + 1) with (3 * t - 1) in * by lia.
    simpl. unfold thriving, passes. simpl.
    split_and!; try done; try lia. by exists rest.
  - destruct (Z.leb_spec 10 t); [lia|]. right.
    replace (3 * t - 1 + 1) with (3 * t) in * by lia.
    simpl. unfold thriving, passes. simpl.
    split_and!; try done; try lia. by exists rest.
  - rewrite add_small in * by lia. destruct (Z.leb_spec 10 (t + 1)).
    + left. assert (t = 9) as -> by lia. simpl. split_and!; [done | | done].
      split; [reflexivity|]. simpl.
      destruct Hledger as (f & e & m & o & Hr & ?). exists f, e, m, o.
      split; [done|]. lia.
    + right. replace (3 * t + 1) with (3 * (t + 1) - 2) in * by lia.
      simpl. unfold thriving, passes. simpl.
      split_and!; try done; try lia. by exists rest.
Qed.

Lemma new_thriving : thriving GameEngine.new.
Proof.
  unfold thriving, passes. simpl. split_and!; try done.
  - unfold healthy, Colonist.new. repeat (constructor; [simpl; lia|]). constructor.
  - exists []. split_and!; [reflexivity | constructor | done].
  - exists 100, 100, 50, 100. split; [reflexivity|]. lia.
Qed.

Lemma reachable_thriving s : GameEngine.reachable s → thriving s ∨ won s.
Proof.
  induction 1 as [|inp s Hs IH Hrun]; [left; apply new_thriving|].
  destruct IH as [Hthriving | [Hwon _]].
  - destruct (thriving_pass s inp Hthriving) as [_ [(_ & ? & _) | (_ & ? & _)]]; auto.
  - rewrite Hwon in Hrun. discriminate Hrun.
Qed.

Lemma thriving_last_pass s :
  thriving s →
  passes (GameEngine.gameState s) = 27
  ↔ GameState.currentPhase (GameEngine.gameState s) = MANAGEMENT
    ∧ GameState.turn (GameEngine.gameState s) = 9.
Proof.
  intros (_ & Hphase & Hturn & Hsetup & _). unfold passes.
  destruct (GameState.currentPhase (GameEngine.gameState s)) eqn:Hp;
    (split; [intros H | intros [H H']]); try done; try lia.
  split; [done | lia].
Qed.

Lemma won_stopped s : won s → GameState.isGameRunning (GameEngine.gameState s) = false.
Proof. by intros [-> _]. Qed.

Lemma run_stopped inputs s :
  GameState.isGameRunning (GameEngine.gameState s) = false →
  GameEngine.runGameLoop inputs s = (s, []).
Proof. intros Hrun. destruct inputs; simpl; [done|]. by rewrite Hrun. Qed.

(** A running game, run on: it is won after the passes that are left. *)
Lemma run_thriving inputs :
  ∀ s, thriving s →
  Forall (λ c, c ≠ CallCheckGameConditions LoseResources
               ∧ c ≠ CallCheckGameConditions LoseRoster)
         (GameEngine.runGameLoop inputs s).2
  ∧ (28 - passes (GameEngine.gameState s) <= Z.of_nat (length inputs) →
     won (GameEngine.runGameLoop inputs s).1
     ∧ Z.of_nat (length (GameEngine.runGameLoop inputs s).2)
       = 3 * (28 - passes (GameEngine.gameState s))
     ∧ last (GameEngine.runGameLoop inputs s).2 = Some (CallCheckGameConditions Win))
  ∧ (Z.of_nat (length inputs) < 28 - passes (GameEngine.gameState s) →
     thriving (GameEngine.runGameLoop inputs s).1
     ∧ Z.of_nat (length (GameEngine.runGameLoop inputs s).2)
       = 3 * Z.of_nat (length inputs)).
Proof.
  induction inputs as [|inp inputs IH]; intros s Hs;
    pose proof (thriving_passes s Hs) as Hpasses.
  - simpl. split_and!; [constructor | lia | by intros _].
  - pose proof Hs as (Hrun & _). cbn [GameEngine.runGameLoop].
    unfold GameState.isGameRunning. rewrite Hrun.
    rewrite length_cons, Nat2Z.inj_succ.
    destruct (thriving_pass s inp Hs) as [_ [(Hlast & Hwon & Hcalls) | (Hmore & Hnext & Hstep & Hcalls)]];
      destruct (GameEngine.loopBody inp s) as [s' calls]; simpl in Hcalls; subst calls;
      cbn [fst snd] in *.
    + rewrite (run_stopped inputs s' (won_stopped s' Hwon)). cbn [fst snd app].
      split_and!.
      * by repeat constructor.
      * intros _. rewrite Hlast. by split_and!.
      * lia.
    + destruct (IH s' Hnext) as (Hnolose & Hdone & Hgoing).
      destruct (GameEngine.runGameLoop inputs s') as [s'' calls']. cbn [fst snd app] in *.
      rewrite Hstep in *. split_and!.
      * by repeat constructor.
      * intros Hlen. destruct Hdone as (? & Hn & Hl); [lia|].
        split_and!; [done | simpl; lia |].
        destruct calls'; [done|]. exact Hl.
      * intros Hlen. destruct Hgoing as (? & Hn); [lia|]. split; [done | simpl; lia].
Qed.

(** X13. While a game runs, no handler throws: the [catch] of the game
    loop is never entered. *)
Theorem game_never_throws s inp :
  GameEngine.reachable s →
  GameState.isGameRunning (GameEngine.gameState s) = true →
  (GameEngine.handlePhase inp s).2 = None.
Proof.
  intros [Hs | Hwon]%reachable_thriving Hrun.
  - by destruct (thriving_pass s inp Hs) as [? _].
  - by rewrite (won_stopped s Hwon) in Hrun.
Qed.

(** The state after the first pass is running, and its handler returns. *)
Lemma game_never_throws_witness :
  GameState.isGameRunning
    (GameEngine.gameState (GameEngine.loopBody idle GameEngine.new).1) = true
  ∧ (GameEngine.handlePhase idle (GameEngine.loopBody idle GameEngine.new).1).2 = None.
Proof.
  split; [reflexivity|]. apply game_never_throws; [|reflexivity].
  apply GameEngine.reachable_pass; [apply GameEngine.reachable_new | reflexivity].
Defined.

(** X14. A game cannot be lost: in every pass of a game the verdict of
    [checkGameConditions] is Continue or Win, whatever is rolled and
    whatever is typed, and it is Win exactly in the pass that handles the
    Management phase of turn 9. *)
Theorem game_never_lost s inp :
  GameEngine.reachable s →
  GameState.isGameRunning (GameEngine.gameState s) = true →
  ∃ v,
    (GameEngine.loopBody inp s).2
    = [CallHandler (GameState.currentPhase (GameEngine.gameState s));
       CallNextPhase; CallCheckGameConditions v]
    ∧ (v = Continue ∨ v = Win)
    ∧ (v = Win ↔ GameState.currentPhase (GameEngine.gameState s) = MANAGEMENT
                 ∧ GameState.turn (GameEngine.gameState s) = 9).
Proof.
  intros [Hs | Hwon]%reachable_thriving Hrun;
    [|by rewrite (won_stopped s Hwon) in Hrun].
  pose proof (thriving_last_pass s Hs) as Hlast.
  destruct (thriving_pass s inp Hs) as [_ [(H27 & _ & ->) | (Hmore & _ & _ & ->)]].
  - exists Win. split_and!; [done | by right |]. split; [intros _; by apply Hlast | done].
  - exists Continue. split_and!; [done | by left |].
    split; [done|]. intros H27%Hlast. lia.
Qed.

(** The first pass of a game. *)
Lemma game_never_lost_witness :
  ∃ v,
    (GameEngine.loopBody idle GameEngine.new).2
    = [CallHandler SETUP; CallNextPhase; CallCheckGameConditions v]
    ∧ (v = Continue ∨ v = Win).
Proof.
  destruct (game_never_lost GameEngine.new idle GameEngine.reachable_new eq_refl)
    as (v & Hcalls & Hv & _).
  by exists v.
Defined.

(** X15. In every state a game reaches, the ledger holds exactly the four
    kinds food, energy, materials and oxygen, each with a quantity between
    0 and 56100, far inside the range of [int]. *)
Theorem ledger_stays_bounded s :
  GameEngine.reachable s →
  ∃ f e m o,
    GameEngine.colonyResources s = quantities f e m o
    ∧ 0 <= f <= 56100 ∧ 0 <= e <= 56100 ∧ 0 <= m <= 56100 ∧ 0 <= o <= 56100.
Proof.
  intros [Hs | [_ Hb]]%reachable_thriving.
  - pose proof (thriving_passes s Hs) as Hpasses.
    destruct Hs as (_ & _ & _ & _ & _ & _ & _ & _ & _ & (f & e & m & o & Hr & ?)).
    exists f, e, m, o. split; [done|].
    destruct (GameState.currentPhase (GameEngine.gameState s)); lia.
  - destruct Hb as (f & e & m & o & Hr & ?). exists f, e, m, o. split; [done|]. lia.
Qed.

(** The ledger after the first pass of a game. *)
Lemma ledger_stays_bounded_witness :
  ∃ f e m o,
    GameEngine.colonyResources (GameEngine.loopBody idle GameEngine.new).1
    = quantities f e m o
    ∧ 0 <= f <= 56100 ∧ 0 <= e <= 56100 ∧ 0 <= m <= 56100 ∧ 0 <= o <= 56100.
Proof.
  apply ledger_stays_bounded.
  apply GameEngine.reachable_pass; [apply GameEngine.reachable_new | reflexivity].
Defined.

(** X16. Every game is won, and after exactly 28 passes of the loop (the
    Setup phase and nine turns of three phases): with 28 inputs or more,
    [runGameLoop] stops in phase End at turn 10 after 84 calls, the last of
    which is [checkGameConditions] with the verdict Win; with fewer inputs
    the game is still running; and no pass on the way has a Lose verdict. *)
Theorem every_game_is_won (inputs : list Input) :
  Forall (λ c, c ≠ CallCheckGameConditions LoseResources
               ∧ c ≠ CallCheckGameConditions LoseRoster)
         (GameEngine.runGameLoop inputs GameEngine.new).2
  ∧ ((28 <= length inputs)%nat →
     GameEngine.gameState (GameEngine.runGameLoop inputs GameEngine.new).1
       = GameState.mk END 10 3 false
     ∧ length (GameEngine.runGameLoop inputs GameEngine.new).2 = 84%nat
     ∧ last (GameEngine.runGameLoop inputs GameEngine.new).2
       = Some (CallCheckGameConditions Win))
  ∧ ((length inputs < 28)%nat →
     GameState.isGameRunning
       (GameEngine.gameState (GameEngine.runGameLoop inputs GameEngine.new).1) = true
     ∧ length (GameEngine.runGameLoop inputs GameEngine.new).2
       = (3 * length inputs)%nat).
Proof.
  destruct (run_thriving inputs GameEngine.new new_thriving) as (Hnolose & Hdone & Hgoing).
  change (passes (GameEngine.gameState GameEngine.new)) with 0 in *.
  split_and!; [done | |].
  - intros Hlen. destruct Hdone as ([Hg _] & Hn & Hl); [lia|]. split_and!; [done | lia | done].
  - intros Hlen. destruct Hgoing as ((Hrun & _) & Hn); [lia|]. split; [done | lia].
Qed.
End WholeGame.

(** ** Thresholds and observations *)

Section Thresholds.

Implicit Types (c : Colonist.t) (s : GameEngine.t).


(** X18. [checkGameConditions] only observes the colony: it changes no
    quantity, no building, no colonist and no event; with the verdict
    Continue it leaves the game state as it is, and with any other verdict
    it ends the game.  (Reading food and oxygen through the non-const
    [operator[]] can create these keys, at 0.) *)
Theorem checkGameConditions_observes s :
  (∀ k, Res.qty (GameEngine.colonyResources (GameEngine.checkGameConditions s).1) k
        = Res.qty (GameEngine.colonyResources s) k)
  ∧ GameEngine.buildings (GameEngine.checkGameConditions s).1 = GameEngine.buildings s
  ∧ GameEngine.colonists (GameEngine.checkGameConditions s).1 = GameEngine.colonists s
  ∧ GameEngine.events (GameEngine.checkGameConditions s).1 = GameEngine.events s
  ∧ GameEngine.gameState (GameEngine.checkGameConditions s).1
    = match (GameEngine.checkGameConditions s).2 with
      | Continue => GameEngine.gameState s
      | _ => GameState.mk END (GameState.turn (GameEngine.gameState s))
               (GameState.colonistCount (GameEngine.gameState s)) false
      end
  ∧ (is_Some (GameEngine.colonyResources s !! "food") →
     is_Some (GameEngine.colonyResources s !! "oxygen") →
     GameEngine.colonyResources (GameEngine.checkGameConditions s).1
     = GameEngine.colonyResources s).
Proof.
  split_and!.
  - intros k. unfold GameEngine.checkGameConditions.
    repeat (case_match; simpl; try done); by rewrite ?touch_qty.
  - unfold GameEngine.checkGameConditions. repeat (case_match; simpl; try done).
  - apply checkGameConditions_colonists.
  - unfold GameEngine.checkGameConditions. repeat (case_match; simpl; try done).
  - apply checkGameConditions_gameState.
  - intros Hfood Hoxygen. unfold GameEngine.checkGameConditions.
    repeat (case_match; simpl; try done);
      rewrite ?(touch_present "oxygen"), ?(touch_present "food"); try done;
      by rewrite touch_present.
Qed.

End Thresholds.
